(** * Net-stubbing event dispatcher of the driver

    Shallow embedding of
    [packages/driver/src/cy/net-stubbing/events/index.ts]:
    the route registry kept under [state('routes')], the lookups
    [getRoute] and [getRequest], the outbound [emitNetEvent], the failure
    chokepoint [failCurrentTest], and the two listeners installed by
    [registerEvents].

    JavaScript objects are heap objects reached through references, so the
    embedding keeps one heap per object type and passes the whole world
    explicitly.  Calls that may raise live in a state-and-exception monad.

    A plain object used as a map (the routes object, a [requests] ledger,
    the handler table) holds its own properties and, behind them, the
    members it inherits from [Object.prototype]; a read [obj[key]] sees
    both.  The module is strict-mode code: a function called without a
    receiver gets [undefined] as [this], and an assignment that cannot be
    carried out raises a [TypeError]. *)

From stdpp Require Import gmap strings list functions.

(** ** Data model *)

(** References to heap objects. *)
Abbreviation Loc := nat.

(** Data this module never inspects (match criteria, HTTP metadata). *)
Abbreviation Payload := string.

(** [Request] of [../types]: opaque to this module. *)
Record Request := mkRequest { request_data : Payload }.

(** [Route] of [../types]: opaque configuration and the own properties of
    the [requests] object, which maps a request id to a [Request] object. *)
Record Route := mkRoute {
  route_config : Payload;
  requests : gmap string Loc
}.

(** An object that is thrown or rejected with.  [fromSpec] is [false] while
    the property is unset; [frozen] says that the object cannot take the
    property (it is frozen, sealed or not extensible). *)
Record ErrorObj := mkErrorObj {
  message : string;
  fromSpec : bool;
  frozen : bool
}.

(** What can be thrown, or handed over as a rejection reason: anything. *)
Inductive Value :=
| VUndefined
| VNull
| VPrimitive (repr : string)      (* a string, number, boolean or symbol *)
| VObject (l : Loc).              (* an object of the error heap *)

(** [NetEventFrames.BaseHttp]: the two identifiers and a payload. *)
Record Frame := mkFrame {
  routeHandlerId : string;
  requestId : string;
  frame_body : Payload
}.

(** Functions this module hands to a promise as a rejection reaction. *)
Inductive Callback := CbFailCurrentTest.

Inductive PromiseState :=
| Pending (reactions : list Callback)
| Fulfilled
| Rejected (reason : Value).

(** Closures this module hands to [setImmediate]. *)
Inductive Task := TaskCyFail (err : Value).

(** Closures this module hands to [Cypress.on]. *)
Inductive Listener := ResetRoutesListener | NetEventListener.

#[global] Instance Listener_eq_dec : EqDecision Listener.
Proof. solve_decision. Defined.

(** Arguments of a [Cypress.backend] call. *)
Inductive JsArg := JString (s : string) | JFrame (f : Frame).

Record BackendRequest := mkBackendRequest {
  backend_event : string;
  backend_args : list JsArg
}.

(** Calls observed on the failure path, in the order they happen. *)
Inductive Call :=
| CallFailCurrentTest (err : Value)
| CallCyFail (err : Value)
| UnhandledRejection (reason : Value).

Record World := mkWorld {
  st_routes : option Loc;                   (* state('routes'), None = undefined *)
  registry_heap : Loc → gmap string Loc;    (* routes objects: id -> Route object *)
  route_heap : Loc → Route;
  request_heap : Loc → Request;
  error_heap : Loc → ErrorObj;
  promise_heap : Loc → PromiseState;
  next_loc : Loc;                           (* next unused reference *)
  listeners : list Listener;                (* registered with Cypress.on *)
  jobs : list (Callback * Value);           (* promise reactions ready to run *)
  immediates : list Task;                   (* setImmediate queue *)
  outbox : list BackendRequest;             (* messages handed to Cypress.backend *)
  trace : list Call
}.

Definition set_st_routes (v : option Loc) (w : World) : World :=
  mkWorld v (registry_heap w) (route_heap w) (request_heap w) (error_heap w)
    (promise_heap w) (next_loc w) (listeners w) (jobs w) (immediates w)
    (outbox w) (trace w).

Definition set_registry_heap (v : Loc → gmap string Loc) (w : World) : World :=
  mkWorld (st_routes w) v (route_heap w) (request_heap w) (error_heap w)
    (promise_heap w) (next_loc w) (listeners w) (jobs w) (immediates w)
    (outbox w) (trace w).

Definition set_error_heap (v : Loc → ErrorObj) (w : World) : World :=
  mkWorld (st_routes w) (registry_heap w) (route_heap w) (request_heap w) v
    (promise_heap w) (next_loc w) (listeners w) (jobs w) (immediates w)
    (outbox w) (trace w).

Definition set_promise_heap (v : Loc → PromiseState) (w : World) : World :=
  mkWorld (st_routes w) (registry_heap w) (route_heap w) (request_heap w)
    (error_heap w) v (next_loc w) (listeners w) (jobs w) (immediates w)
    (outbox w) (trace w).

Definition set_next_loc (v : Loc) (w : World) : World :=
  mkWorld (st_routes w) (registry_heap w) (route_heap w) (request_heap w)
    (error_heap w) (promise_heap w) v (listeners w) (jobs w) (immediates w)
    (outbox w) (trace w).

Definition set_listeners (v : list Listener) (w : World) : World :=
  mkWorld (st_routes w) (registry_heap w) (route_heap w) (request_heap w)
    (error_heap w) (promise_heap w) (next_loc w) v (jobs w) (immediates w)
    (outbox w) (trace w).

Definition set_jobs (v : list (Callback * Value)) (w : World) : World :=
  mkWorld (st_routes w) (registry_heap w) (route_heap w) (request_heap w)
    (error_heap w) (promise_heap w) (next_loc w) (listeners w) v (immediates w)
    (outbox w) (trace w).

Definition set_immediates (v : list Task) (w : World) : World :=
  mkWorld (st_routes w) (registry_heap w) (route_heap w) (request_heap w)
    (error_heap w) (promise_heap w) (next_loc w) (listeners w) (jobs w) v
    (outbox w) (trace w).

Definition set_outbox (v : list BackendRequest) (w : World) : World :=
  mkWorld (st_routes w) (registry_heap w) (route_heap w) (request_heap w)
    (error_heap w) (promise_heap w) (next_loc w) (listeners w) (jobs w)
    (immediates w) v (trace w).

Definition set_trace (v : list Call) (w : World) : World :=
  mkWorld (st_routes w) (registry_heap w) (route_heap w) (request_heap w)
    (error_heap w) (promise_heap w) (next_loc w) (listeners w) (jobs w)
    (immediates w) (outbox w) v.

(** ** Calls that return or raise *)

Inductive Completion (A : Type) :=
| Normal (a : A)
| Throw (e : Value).
Arguments Normal {A} a.
Arguments Throw {A} e.

Definition M (A : Type) : Type := World → Completion A * World.

#[global] Instance M_ret : MRet M := λ A a w, (Normal a, w).

#[global] Instance M_bind : MBind M := λ A B k m w,
  match m w with
  | (Normal a, w') => k a w'
  | (Throw e, w') => (Throw e, w')
  end.

Definition get {A} (f : World → A) : M A := λ w, (Normal (f w), w).
Definition modify (f : World → World) : M unit := λ w, (Normal (), f w).
Definition throw {A} (e : Value) : M A := λ w, (Throw e, w).

(** A fresh reference. *)
Definition fresh : M Loc :=
  λ w, (Normal (next_loc w), set_next_loc (S (next_loc w)) w).

(** [throw new TypeError(msg)], as the engine does on a bad access, call or
    assignment: a new, ordinary error object. *)
Definition throwTypeError {A} (msg : string) : M A :=
  e ← fresh;
  modify (λ w, set_error_heap (<[e := mkErrorObj msg false false]> (error_heap w)) w);;
  throw (VObject e).

(** ** Plain objects used as maps *)

(** The members every plain object inherits from [Object.prototype]. *)
Definition object_prototype_names : list string :=
  [ "constructor"; "hasOwnProperty"; "isPrototypeOf"; "propertyIsEnumerable";
    "toLocaleString"; "toString"; "valueOf"; "__proto__";
    "__defineGetter__"; "__defineSetter__"; "__lookupGetter__"; "__lookupSetter__" ].

(** What [obj[key]] reads on a plain object. *)
Inductive Member :=
| Undefined
| Own (l : Loc)               (* the object's own property *)
| Inherited (name : string).  (* a member of Object.prototype *)

Definition js_lookup (own : gmap string Loc) (key : string) : Member :=
  match own !! key with
  | Some l => Own l
  | None =>
      if bool_decide (key ∈ object_prototype_names) then Inherited key
      else Undefined
  end.

(** ** The registry and its lookups *)

(** Modelled from the spec: [Cypress.state], the driver-wide state store the
    registry is keyed off.  [state('routes')] reads the slot and
    [state('routes', v)] overwrites it.  This module writes the slot only in
    its ['test:before:run'] listener, so until that first runs the slot can
    read as [undefined]. *)
Definition state_routes : M (option Loc) := get st_routes.
Definition state_set_routes (r : Loc) : M unit := modify (set_st_routes (Some r)).

(** The object literal [{}] used as a routes object: no own property. *)
Definition new_registry : M Loc :=
  r ← fresh;
  modify (λ w, set_registry_heap (<[r := ∅]> (registry_heap w)) w);;
  mret r.

Definition getRoute (routeHandlerId : string) : M Member :=
  routes ← state_routes;
  match routes with
  | Some r => get (λ w, js_lookup (registry_heap w r) routeHandlerId)
  | None => throwTypeError "Cannot read properties of undefined"
  end.

(** [if (route)] holds for a Route and for every inherited member, which
    are functions or, for [__proto__], an object; none of the latter has a
    [requests] property, so indexing it raises. *)
Definition getRequest (routeHandlerId requestId : string) : M Member :=
  route ← getRoute routeHandlerId;
  match route with
  | Own r => get (λ w, js_lookup (requests (route_heap w r)) requestId)
  | Inherited _ => throwTypeError "Cannot read properties of undefined"
  | Undefined => mret Undefined
  end.

(** ** Outbound emission and failure attribution *)

(** Modelled from the spec: [Cypress.backend], the request/response
    capability of the host-communication layer.  A call hands one message to
    the host and returns the promise of the round trip, still pending. *)
Definition Cypress_backend (event : string) (args : list JsArg) : M Loc :=
  p ← fresh;
  modify (λ w, set_promise_heap (<[p := Pending []]> (promise_heap w)) w);;
  modify (λ w, set_outbox (outbox w ++ [mkBackendRequest event args]) w);;
  mret p.

Definition emitNetEvent (eventName : string) (frame : Frame) : M Loc :=
  Cypress_backend "net" [JString eventName; JFrame frame].

(** Bookkeeping of the embedding, with no counterpart in the source: the
    call is appended to the trace so that statements can count calls. *)
Definition observe (c : Call) : M unit :=
  modify (λ w, set_trace (trace w ++ [c]) w).

(** [setImmediate(task)]: the task runs on a later turn of the event loop. *)
Definition setImmediate (t : Task) : M unit :=
  modify (λ w, set_immediates (immediates w ++ [t]) w).

(** Modelled from the spec: [Cypress.cy.fail], the action that fails the
    running test; the embedding records that it was invoked. *)
Definition Cypress_cy_fail (err : Value) : M unit := observe (CallCyFail err).

(** [err.fromSpec = true].  The assignment is refused, with a [TypeError],
    on [undefined], [null], a primitive, and an object that cannot take the
    property. *)
Definition tag_fromSpec (err : Value) : M unit :=
  match err with
  | VObject l =>
      obj ← get (λ w, error_heap w l);
      if frozen obj then
        throwTypeError "Cannot add property fromSpec, object is not extensible"
      else
        modify (λ w,
          set_error_heap (<[l := mkErrorObj (message obj) true false]> (error_heap w)) w)
  | VUndefined | VNull => throwTypeError "Cannot set properties of undefined"
  | VPrimitive _ => throwTypeError "Cannot create property 'fromSpec'"
  end.

(** [err.fromSpec = true], then [setImmediate(() => Cypress.cy.fail(err))];
    the first line only records that the function was entered. *)
Definition failCurrentTest (err : Value) : M unit :=
  observe (CallFailCurrentTest err);;
  tag_fromSpec err;;
  setImmediate (TaskCyFail err).

(** ** Promises and the event loop *)

Definition new_promise (s : PromiseState) : M Loc :=
  p ← fresh;
  modify (λ w, set_promise_heap (<[p := s]> (promise_heap w)) w);;
  mret p.

(** What the function handed to [Bluebird.try] returns: a promise, or
    anything that is not one ([void], a string, an object without [then]). *)
Inductive HandlerReturn := RetVoid | RetPromise (p : Loc).

(** [Bluebird.try(fn)]: runs [fn] at once and never raises.  A raise
    becomes a rejected promise, a plain return a fulfilled one; when [fn]
    returns a promise the result follows it, and the embedding identifies
    the two. *)
Definition Bluebird_try (fn : M HandlerReturn) : M Loc := λ w,
  match fn w with
  | (Throw e, w') => new_promise (Rejected e) w'
  | (Normal RetVoid, w') => new_promise Fulfilled w'
  | (Normal (RetPromise p), w') => (Normal p, w')
  end.

(** [promise.catch(cb)]: the reaction runs on a later tick, once the promise
    is rejected.  The derived promise is dropped by the only caller. *)
Definition Bluebird_catch (p : Loc) (cb : Callback) : M unit :=
  modify (λ w,
    match promise_heap w p with
    | Rejected e => set_jobs (jobs w ++ [(cb, e)]) w
    | Fulfilled => w
    | Pending rs => set_promise_heap (<[p := Pending (rs ++ [cb])]> (promise_heap w)) w
    end).

(** The environment settles a pending promise. *)
Definition reject_promise (p : Loc) (e : Value) (w : World) : World :=
  match promise_heap w p with
  | Pending rs =>
      set_jobs (jobs w ++ map (λ cb, (cb, e)) rs)
        (set_promise_heap (<[p := Rejected e]> (promise_heap w)) w)
  | _ => w
  end.

Definition fulfil_promise (p : Loc) (w : World) : World :=
  match promise_heap w p with
  | Pending _ => set_promise_heap (<[p := Fulfilled]> (promise_heap w)) w
  | _ => w
  end.

Definition run_callback (cb : Callback) (reason : Value) : M unit :=
  match cb with
  | CbFailCurrentTest => failCurrentTest reason
  end.

(** A reaction that raises rejects the derived promise, which nobody
    handles. *)
Definition run_job (j : Callback * Value) (w : World) : World :=
  match run_callback j.1 j.2 w with
  | (Normal _, w') => w'
  | (Throw e, w') => set_trace (trace w' ++ [UnhandledRejection e]) w'
  end.

Definition step_job (w : World) : option World :=
  match jobs w with
  | [] => None
  | j :: js => Some (run_job j (set_jobs js w))
  end.

Fixpoint run_jobs (fuel : nat) (w : World) : World :=
  match fuel with
  | 0 => w
  | S n => match step_job w with
           | Some w' => run_jobs n w'
           | None => w
           end
  end.

Definition run_task (t : Task) : M unit :=
  match t with
  | TaskCyFail err => Cypress_cy_fail err
  end.

(** One turn of the [setImmediate] queue. *)
Definition step_immediate (w : World) : option World :=
  match immediates w with
  | [] => None
  | t :: ts => Some (run_task t (set_immediates ts w)).2
  end.

(** ** The dispatcher *)

(** The capability bundle a handler receives as [opts]. *)
Record HandlerOpts := mkHandlerOpts {
  opts_getRequest : string → string → M Member;
  opts_getRoute : string → M Member;
  opts_emitNetEvent : string → Frame → M Loc;
  opts_failCurrentTest : Value → M unit
}.

(** [HandlerFn]: the [Cypress] argument gives a handler the whole driver, so
    a handler is any computation over the world. *)
Definition HandlerFn : Type := Frame → HandlerOpts → M HandlerReturn.

Definition handlerOpts : HandlerOpts :=
  mkHandlerOpts getRequest getRoute emitNetEvent failCurrentTest.

(** The listener of ['test:before:run']: [state('routes', {})]. *)
Definition resetRoutes : M unit :=
  r ← new_registry;
  state_set_routes r.

(** Events of the driver's emitter that this module subscribes to. *)
Inductive CyEvent :=
| TestBeforeRun
| NetEvent (eventName : string) (frame : Frame).

Definition event_name (ev : CyEvent) : string :=
  match ev with
  | TestBeforeRun => "test:before:run"
  | NetEvent _ _ => "net:event"
  end.

Definition subscribed_to (l : Listener) : string :=
  match l with
  | ResetRoutesListener => "test:before:run"
  | NetEventListener => "net:event"
  end.

(** Modelled from the spec: [Cypress.on], which subscribes a listener. *)
Definition Cypress_on (l : Listener) : M unit :=
  modify (λ w, set_listeners (listeners w ++ [l]) w).

(** What [registerEvents] returns. *)
Record Exports := mkExports {
  exports_emitNetEvent : string → Frame → M Loc
}.

(** What [netEventHandlers[eventName]] reads: one of the three handlers, a
    member inherited from [Object.prototype], or [undefined]. *)
Inductive TableEntry :=
| Handler (h : HandlerFn)
| Builtin (name : string)
| Missing.

(** Calling a member of [Object.prototype] as [handler(Cypress, frame,
    opts)], with [undefined] as [this].  [Object(Cypress, ...)] returns its
    first argument and [toString] returns ["[object Undefined]"]; every
    other function converts [this] to an object first and raises, and
    [__proto__] reads as an object, which cannot be called. *)
Definition call_builtin (name : string) : M HandlerReturn :=
  if bool_decide (name ∈ ["constructor"; "toString"]) then mret RetVoid
  else throwTypeError "Cannot convert undefined or null to object".

Section Dispatcher.

(** The three lifecycle handlers, imported from sibling modules. *)
Context (onRequestReceived onResponseReceived onRequestComplete : HandlerFn).

Definition netEventHandlers (eventName : string) : TableEntry :=
  if String.eqb eventName "http:request:received" then Handler onRequestReceived
  else if String.eqb eventName "http:response:received" then Handler onResponseReceived
  else if String.eqb eventName "http:request:complete" then Handler onRequestComplete
  else if bool_decide (eventName ∈ object_prototype_names) then Builtin eventName
  else Missing.

(** The body handed to [Bluebird.try]: calling [undefined] raises. *)
Definition invokeHandler (eventName : string) (frame : Frame) : M HandlerReturn :=
  match netEventHandlers eventName with
  | Handler handler => handler frame handlerOpts
  | Builtin name => call_builtin name
  | Missing => throwTypeError "handler is not a function"
  end.

(** The listener of ['net:event']. *)
Definition onNetEvent (eventName : string) (frame : Frame) : M unit :=
  p ← Bluebird_try (invokeHandler eventName frame);
  Bluebird_catch p CbFailCurrentTest.

Definition run_listener (l : Listener) (ev : CyEvent) : M unit :=
  match l, ev with
  | ResetRoutesListener, TestBeforeRun => resetRoutes
  | NetEventListener, NetEvent eventName frame => onNetEvent eventName frame
  | _, _ => mret ()
  end.

Fixpoint run_listeners (ls : list Listener) (ev : CyEvent) : M unit :=
  match ls with
  | [] => mret ()
  | l :: ls' => run_listener l ev;; run_listeners ls' ev
  end.

(** Modelled from the spec: the emitter calls, in subscription order, the
    listeners subscribed to the event. *)
Definition Cypress_emit (ev : CyEvent) : M unit :=
  ls ← get listeners;
  run_listeners (filter (λ l, subscribed_to l = event_name ev) ls) ev.

Definition registerEvents : M Exports :=
  Cypress_on ResetRoutesListener;;
  Cypress_on NetEventListener;;
  mret (mkExports emitNetEvent).

End Dispatcher.

(** ** Sample worlds and handlers *)

(** The world in which [registerEvents] first runs: nothing allocated, no
    subscription, [state('routes')] never written. *)
Definition initial_world : World :=
  mkWorld None (λ _, ∅) (λ _, mkRoute "" ∅) (λ _, mkRequest "")
    (λ _, mkErrorObj "" false false) (λ _, Pending []) 0 [] [] [] [] [].

(** A test in progress: route ["route1"] (object 1) holds request ["req1"]
    (object 2) in the routes object 0; object 3 is an error a handler made,
    object 4 a frozen one. *)
Definition sample_world : World :=
  mkWorld (Some 0)
    (<[0 := {["route1" := 1]}]> (λ _, ∅))
    (<[1 := mkRoute "GET /users" {["req1" := 2]}]> (λ _, mkRoute "" ∅))
    (<[2 := mkRequest "GET /users/1"]> (λ _, mkRequest ""))
    (<[3 := mkErrorObj "callback failed" false false]>
       (<[4 := mkErrorObj "frozen" false true]> (λ _, mkErrorObj "" false false)))
    (λ _, Pending []) 5 [] [] [] [] [].

Definition noopHandler : HandlerFn := λ _ _, mret RetVoid.

(** A handler that raises the error object 3. *)
Definition throwingHandler : HandlerFn := λ _ _, throw (VObject 3).

(** A handler that runs [throw undefined]. *)
Definition throwingUndefinedHandler : HandlerFn := λ _ _, throw VUndefined.

(** A handler that emits a follow-up frame and returns its promise. *)
Definition emittingHandler : HandlerFn := λ frame opts,
  p ← opts_emitNetEvent opts "http:request:continue" frame;
  mret (RetPromise p).

Definition sample_frame : Frame := mkFrame "route1" "req1" "GET /users/1".

(** ** Predicates used in the statements *)

(** Every object that existed in [w] is the same in [w']: Route, Request
    and Error objects, and the routes objects allocated so far. *)
Definition objects_kept (w w' : World) : Prop :=
  route_heap w' = route_heap w ∧
  request_heap w' = request_heap w ∧
  error_heap w' = error_heap w ∧
  next_loc w ≤ next_loc w' ∧
  ∀ r, r < next_loc w → registry_heap w' r = registry_heap w r.

(** [state('routes')] of [w'] is a routes object without own properties
    that did not exist in [w]. *)
Definition fresh_empty_registry (w w' : World) : Prop :=
  ∃ r, st_routes w' = Some r ∧ next_loc w ≤ r ∧ registry_heap w' r = ∅.

(** All reactions that are ready run, in order. *)
Definition drain_jobs (w : World) : World := run_jobs (length (jobs w)) w.

Definition task_err (t : Task) : Value :=
  match t with TaskCyFail err => err end.

(** The errors handed to [Cypress.cy.fail] so far, oldest first. *)
Definition cy_fail_calls (t : list Call) : list Value :=
  omap (λ c, match c with CallCyFail err => Some err | _ => None end) t.

(** The reasons handed to [failCurrentTest] so far, oldest first. *)
Definition failCurrentTest_calls (t : list Call) : list Value :=
  omap (λ c, match c with CallFailCurrentTest err => Some err | _ => None end) t.

(** Turns of the [setImmediate] queue, at most [fuel] of them. *)
Fixpoint run_immediates (fuel : nat) (w : World) : World :=
  match fuel with
  | 0 => w
  | S n => match step_immediate w with
           | Some w' => run_immediates n w'
           | None => w
           end
  end.

Definition drain_immediates (w : World) : World :=
  run_immediates (length (immediates w)) w.

(** The registry slot, the routes objects, the Routes with their ledgers
    and the Requests are the same in [w'] as in [w]. *)
Definition registry_unchanged (w w' : World) : Prop :=
  st_routes w' = st_routes w ∧
  registry_heap w' = registry_heap w ∧
  route_heap w' = route_heap w ∧
  request_heap w' = request_heap w.

(** [err] is an object that can take the [fromSpec] property. *)
Definition taggable (w : World) (err : Value) : bool :=
  match err with
  | VObject l => negb (frozen (error_heap w l))
  | _ => false
  end.

(** The reaction on [reason] is the last one queued in [w], behind [n]
    others.  When its turn comes it calls [failCurrentTest] on [reason]
    exactly once; if [reason] can take the property the failing action is
    deferred and nothing else happens, otherwise the call raises, nothing
    is deferred and the [TypeError] is left as an unhandled rejection. *)
Definition delivers (w : World) (n : nat) (reason : Value) : Prop :=
  let turn := run_jobs n w in
  jobs turn = [(CbFailCurrentTest, reason)] ∧
  drain_jobs w = run_jobs 1 turn ∧
  jobs (drain_jobs w) = [] ∧
  trace (drain_jobs w) =
    trace turn ++ CallFailCurrentTest reason ::
      (if taggable turn reason then []
       else [UnhandledRejection (VObject (next_loc turn))]) ∧
  immediates (drain_jobs w) =
    immediates turn ++ (if taggable turn reason then [TaskCyFail reason] else []).

(** * Configuration of the server

    Shallow embedding of the synchronous helpers of
    [packages/server/lib/config.js]: the key tables built with [toWords],
    [allowed], [validateNoBreakingConfig], [resolveConfigValues],
    [convertRelativeToAbsolutePaths] with [setAbsolutePaths], and
    [isCypressEnvLike], [removeEnvPrefix], [getProcessEnvVars].

    A character of a string stands for a UTF-16 code unit below 256.  A
    configuration object is the finite map of its own properties; it is
    only read at the names of the key tables, none of which is inherited
    from [Object.prototype], and the order of its keys is not modelled.
    The order of an array, and of the process environment, is. *)
Module Config.

(** ** Values *)

(** Numbers are the integers. *)
#[warnings="-register-all"]
Inductive JsVal :=
| JUndefined
| JNull
| JBool (b : bool)
| JNumber (n : Z)
| JString (s : string)
| JArray (items : list JsVal)
| JObject (fields : list (string * JsVal)).

(** [if (v)] *)
Definition truthy (v : JsVal) : bool :=
  match v with
  | JUndefined | JNull => false
  | JBool b => b
  | JNumber n => negb (n =? 0)%Z
  | JString s => negb (String.eqb s "")
  | JArray _ | JObject _ => true
  end.

(** [_.isObject(v)] *)
Definition isObject (v : JsVal) : bool :=
  match v with
  | JArray _ | JObject _ => true
  | _ => false
  end.

(** [obj[key]]: a missing property reads as [undefined]. *)
Definition prop (obj : gmap string JsVal) (key : string) : JsVal :=
  default JUndefined (obj !! key).

(** What a call can raise. *)
Inductive Failure :=
| CypressError (type : string) (args : list string)   (* errors.throw(type, ...args) *)
| JsError (msg : string)                               (* throw new Error(msg) *)
| Thrown (tag : string).                               (* raised by a library call *)

Inductive Outcome (A : Type) :=
| Returned (a : A)
| Raised (e : Failure).
Arguments Returned {A} a.
Arguments Raised {A} e.

(** ** Strings *)

(** The code units below 256 that [\s] and [trim] treat as white space. *)
Definition is_space (c : Ascii.ascii) : bool :=
  let n := Ascii.N_of_ascii c in
  ((9 <=? n) && (n <=? 13) || (n =? 32) || (n =? 160))%N.

Fixpoint trim_start (s : string) : string :=
  match s with
  | String c s' => if is_space c then trim_start s' else s
  | EmptyString => EmptyString
  end.

Fixpoint trim_end (s : string) : string :=
  match s with
  | String c s' =>
      match trim_end s' with
      | EmptyString => if is_space c then EmptyString else String c EmptyString
      | t => String c t
      end
  | EmptyString => EmptyString
  end.

(** [str.trim()] *)
Definition trim (s : string) : string := trim_end (trim_start s).

(** [str.split(/\s+/)] from a position that is ([in_gap]) or is not inside a
    run of white space; the head of the result is the word being read. *)
Fixpoint split_spaces (s : string) (in_gap : bool) : list string :=
  match s with
  | EmptyString => [EmptyString]
  | String c s' =>
      if is_space c then
        if in_gap then split_spaces s' true
        else EmptyString :: split_spaces s' true
      else
        match split_spaces s' false with
        | w :: ws => String c w :: ws
        | [] => [String c EmptyString]
        end
  end.

Definition toWords (str : string) : list string := split_spaces (trim str) false.

(** The line feed of a template literal. *)
Definition nl : string := String (Ascii.ascii_of_nat 10) EmptyString.

(** [key.slice(n)] for [n] within the string or beyond it. *)
Fixpoint slice_from (n : nat) (s : string) : string :=
  match n, s with
  | S n', String _ s' => slice_from n' s'
  | _, _ => s
  end.

(** ** Key tables *)

Definition CYPRESS_ENV_PREFIX : string := "CYPRESS_".
Definition CYPRESS_ENV_PREFIX_LENGTH : nat := String.length "CYPRESS_".
Definition CYPRESS_RESERVED_ENV_VARS : list string := ["CYPRESS_INTERNAL_ENV"].

Definition folders : list string :=
  toWords
    ("fileServerFolder   fixturesFolder   integrationFolder   pluginsFile" ++ nl ++
     "screenshotsFolder  supportFile      supportFolder       unitFolder" ++ nl ++
     "videosFolder")
  ++ ["componentFolder"].

Definition configKeys : list string :=
  toWords
    ("animationDistanceThreshold      fileServerFolder" ++ nl ++
     "baseUrl                         fixturesFolder" ++ nl ++
     "blockHosts" ++ nl ++
     "chromeWebSecurity" ++ nl ++
     "modifyObstructiveCode           integrationFolder" ++ nl ++
     "env                             pluginsFile" ++ nl ++
     "hosts                           screenshotsFolder" ++ nl ++
     "numTestsKeptInMemory            supportFile" ++ nl ++
     "port                            supportFolder" ++ nl ++
     "projectId                       videosFolder" ++ nl ++
     "reporter" ++ nl ++
     "reporterOptions" ++ nl ++
     "ignoreTestFiles" ++ nl ++
     "testFiles                       defaultCommandTimeout" ++ nl ++
     "trashAssetsBeforeRuns           execTimeout" ++ nl ++
     "userAgent                       pageLoadTimeout" ++ nl ++
     "viewportWidth                   requestTimeout" ++ nl ++
     "viewportHeight                  responseTimeout" ++ nl ++
     "video                           taskTimeout" ++ nl ++
     "videoCompression" ++ nl ++
     "videoUploadOnPasses" ++ nl ++
     "screenshotOnRunFailure" ++ nl ++
     "watchForFileChanges" ++ nl ++
     "waitForAnimations               resolvedNodeVersion" ++ nl ++
     "nodeVersion                     resolvedNodePath" ++ nl ++
     "firefoxGcInterval" ++ nl ++
     "retries" ++ nl)
  ++ ["componentFolder"].

Definition breakingConfigKeys : list string :=
  toWords
    ("blacklistHosts" ++ nl ++
     "videoRecording" ++ nl ++
     "screenshotOnHeadlessFailure" ++ nl ++
     "trashAssetsBeforeHeadlessRuns" ++ nl ++
     "experimentalGetCookiesSameSite").

Definition systemConfigKeys : list string := toWords "browsers".

Definition experimentalConfigKeys : list string :=
  [ "experimentalSourceRewriting";
    "experimentalComponentTesting";
    "experimentalShadowDomSupport";
    "experimentalFetchPolyfill";
    "experimentalNetworkStubbing" ].

Definition getConfigKeys : list string := configKeys ++ experimentalConfigKeys.

(** ** Picking the known keys *)

(** [_.pick(obj, names)] *)
Definition pick (obj : gmap string JsVal) (names : list string) : gmap string JsVal :=
  filter (λ kv, kv.1 ∈ names) obj.

Definition allowed (obj : gmap string JsVal) : gmap string JsVal :=
  pick obj
    (((configKeys ++ breakingConfigKeys) ++ systemConfigKeys) ++ experimentalConfigKeys).

(** ** Removed and renamed keys *)

(** What an iteratee of [_.each] does: return something other than [false],
    return [false] (which ends the loop), or raise. *)
Inductive Iter :=
| IterContinue
| IterBreak
| IterRaise (e : Failure).

(** [_.each(xs, f)], with the warnings logged so far threaded through. *)
Fixpoint each {A} (f : A → list string → Iter * list string) (xs : list A)
    (warnings : list string) : option Failure * list string :=
  match xs with
  | [] => (None, warnings)
  | x :: xs' =>
      match f x warnings with
      | (IterContinue, warnings') => each f xs' warnings'
      | (IterBreak, warnings') => (None, warnings')
      | (IterRaise e, warnings') => (Some e, warnings')
      end
  end.

Section BreakingConfig.

(** Whether [errors.warning] returns [false]; [./errors] is not among the
    sources, so both answers are kept. *)
Context (warning_returns_false : bool).

(** [errors.warning(type)]: logs, then returns. *)
Definition errors_warning (type : string) (warnings : list string) : Iter * list string :=
  (if warning_returns_false then IterBreak else IterContinue, warnings ++ [type]).

Definition breaking_case (key : string) (warnings : list string) : Iter * list string :=
  if String.eqb key "screenshotOnHeadlessFailure" then
    (IterRaise (CypressError "SCREENSHOT_ON_HEADLESS_FAILURE_REMOVED" []), warnings)
  else if String.eqb key "trashAssetsBeforeHeadlessRuns" then
    (IterRaise (CypressError "RENAMED_CONFIG_OPTION" [key; "trashAssetsBeforeRuns"]), warnings)
  else if String.eqb key "videoRecording" then
    (IterRaise (CypressError "RENAMED_CONFIG_OPTION" [key; "video"]), warnings)
  else if String.eqb key "blacklistHosts" then
    (IterRaise (CypressError "RENAMED_CONFIG_OPTION" [key; "blockHosts"]), warnings)
  else if String.eqb key "experimentalGetCookiesSameSite" then
    errors_warning "EXPERIMENTAL_SAMESITE_REMOVED" warnings
  else
    (IterRaise (JsError ("unknown breaking config key " ++ key)), warnings).

(** The failure raised, if any, and the warnings logged. *)
Definition validateNoBreakingConfig (cfg : gmap string JsVal) : option Failure * list string :=
  each
    (λ key warnings,
       if decide (is_Some (cfg !! key)) then breaking_case key warnings
       else (IterContinue, warnings))
    breakingConfigKeys [].

End BreakingConfig.

(** ** Where a value comes from *)

(** [{ value: val, from: s }] *)
Definition source (val s : JsVal) : JsVal :=
  JObject [("value", val); ("from", s)].

Section ResolveConfigValues.

(** [_.isEqual], deep equality of lodash. *)
Context (isEqual : JsVal → JsVal → bool).

Definition resolveConfigValues (config defaults resolved : gmap string JsVal)
    : gmap string JsVal :=
  map_imap
    (λ key val,
       let r := prop resolved key in
       Some
         (if truthy r then
            if isObject r then r else source val r
          else if negb (negb (isEqual (prop config key) (prop defaults key))
                        && negb (String.eqb key "browsers")) then
            source val (JString "default")
          else
            source val (JString "config")))
    (pick config ((configKeys ++ systemConfigKeys) ++ experimentalConfigKeys)).

End ResolveConfigValues.

(** ** Absolute folder paths *)

Section AbsolutePaths.

(** [path.resolve(root, val)]: returns a path or raises on an argument it
    does not accept. *)
Context (path_resolve : JsVal → JsVal → Outcome string).

(** One step of the reduction over [folders]. *)
Definition convert_folder (projectRoot : JsVal) (obj : gmap string JsVal)
    (memo : Outcome (gmap string JsVal)) (folder : string)
    : Outcome (gmap string JsVal) :=
  match memo with
  | Raised e => Raised e
  | Returned m =>
      match prop obj folder with
      | JUndefined | JNull | JBool false => Returned m
      | val =>
          match path_resolve projectRoot val with
          | Returned p => Returned (<[folder := JString p]> m)
          | Raised e => Raised e
          end
      end
  end.

Definition convertRelativeToAbsolutePaths (projectRoot : JsVal) (obj : gmap string JsVal)
    : Outcome (gmap string JsVal) :=
  foldl (convert_folder projectRoot obj) (Returned ∅) folders.

(** [_.clone(obj)] then, with a project root, [_.extend(obj, converted)]. *)
Definition setAbsolutePaths (obj : gmap string JsVal) : Outcome (gmap string JsVal) :=
  let pr := prop obj "projectRoot" in
  if truthy pr then
    match convertRelativeToAbsolutePaths pr obj with
    | Returned converted => Returned (converted ∪ obj)
    | Raised e => Raised e
    end
  else Returned obj.

End AbsolutePaths.

(** ** Environment variables *)

(** [memo[key] = v] on a plain object, as the own properties it leaves.
    The name [__proto__] reaches the setter inherited from
    [Object.prototype]: the object gets no own property of that name (the
    setter changes the prototype when [v] is an object or [null], and does
    nothing for any other value). *)
Definition assign (memo : gmap string JsVal) (key : string) (v : JsVal)
    : gmap string JsVal :=
  if String.eqb key "__proto__" then memo else <[key := v]> memo.

Section ProcessEnv.

(** [String.prototype.toUpperCase] and [./util/coerce], both kept abstract. *)
Context (toUpperCase : string → string) (coerce : string → JsVal).

Definition isCypressEnvLike (key : string) : bool :=
  String.prefix CYPRESS_ENV_PREFIX (toUpperCase key)
  && negb (bool_decide (key ∈ CYPRESS_RESERVED_ENV_VARS)).

Definition removeEnvPrefix (key : string) : string :=
  slice_from CYPRESS_ENV_PREFIX_LENGTH key.

(** [obj] lists the variables in the order the loop visits them. *)
Definition getProcessEnvVars (obj : list (string * string)) : gmap string JsVal :=
  foldl
    (λ memo kv,
       if isCypressEnvLike kv.1 then assign memo (removeEnvPrefix kv.1) (coerce kv.2)
       else memo)
    ∅ obj.

End ProcessEnv.

(** ** Predicates used in the statements *)

Fixpoint has_space (s : string) : bool :=
  match s with
  | String c s' => is_space c || has_space s'
  | EmptyString => false
  end.

Definition starts_with_space (s : string) : bool :=
  match s with
  | String c _ => is_space c
  | EmptyString => false
  end.

(** A folder value that [convertRelativeToAbsolutePaths] resolves. *)
Definition enabled (v : JsVal) : bool :=
  match v with
  | JUndefined | JNull | JBool false => false
  | _ => true
  end.

(** ** Samples *)

Definition sample_path_resolve (root val : JsVal) : Outcome string :=
  match root, val with
  | JString r, JString v => Returned (r +:+ "/" +:+ v)
  | _, _ => Raised (Thrown "ERR_INVALID_ARG_TYPE")
  end.

Definition sample_config : gmap string JsVal :=
  {[ "projectRoot" := JString "/work/app";
     "integrationFolder" := JString "cypress/integration";
     "supportFile" := JBool false;
     "baseUrl" := JString "http://localhost:3000";
     "browsers" := JArray [JString "chrome"];
     "blacklistHosts" := JString "ads.example.com";
     "videoRecording" := JBool true;
     "myOwnKey" := JNumber 1 ]}.

Definition sample_config_absolute : gmap string JsVal :=
  match setAbsolutePaths sample_path_resolve sample_config with
  | Returned m => m
  | Raised _ => ∅
  end.

(** A fixtures folder that is neither a path nor switched off. *)
Definition sample_bad_config : gmap string JsVal :=
  {[ "projectRoot" := JString "/work/app";
     "fixturesFolder" := JNumber 5 ]}.

(** Upper case of the letters a to z. *)
Definition ascii_upper (c : Ascii.ascii) : Ascii.ascii :=
  let n := Ascii.N_of_ascii c in
  if ((97 <=? n) && (n <=? 122))%N then Ascii.ascii_of_N (n - 32) else c.

Fixpoint sample_toUpperCase (s : string) : string :=
  match s with
  | String c s' => String (ascii_upper c) (sample_toUpperCase s')
  | EmptyString => EmptyString
  end.

Definition sample_coerce (s : string) : JsVal :=
  if String.eqb s "true" then JBool true
  else if String.eqb s "false" then JBool false
  else JString s.

(** Step of the reduction in [getProcessEnvVars]. *)
Definition env_step (toUpperCase : string → string) (coerce : string → JsVal)
    (memo : gmap string JsVal) (kv : string * string) : gmap string JsVal :=
  if isCypressEnvLike toUpperCase kv.1 then assign memo (removeEnvPrefix kv.1) (coerce kv.2)
  else memo.

Definition sample_env : list (string * string) :=
  [ ("PATH", "/usr/bin");
    ("CYPRESS_INTERNAL_ENV", "production");
    ("CYPRESS_baseUrl", "http://localhost:8080");
    ("cypress_video", "false") ].

End Config.

(** * Properties *)

(** ** The lookups *)

Lemma js_lookup_undefined (own : gmap string Loc) (key : string) :
  own !! key = None → key ∉ object_prototype_names → js_lookup own key = Undefined.
Proof. intros Hown Hkey. unfold js_lookup. by rewrite Hown, bool_decide_eq_false_2. Qed.

Lemma js_lookup_inherited (own : gmap string Loc) (key : string) :
  own !! key = None → key ∈ object_prototype_names → js_lookup own key = Inherited key.
Proof. intros Hown Hkey. unfold js_lookup. by rewrite Hown, bool_decide_eq_true_2. Qed.

Lemma getRoute_initialised (w : World) (reg : Loc) (rid : string) :
  st_routes w = Some reg →
  getRoute rid w = (Normal (js_lookup (registry_heap w reg) rid), w).
Proof.
  intros Hreg. unfold getRoute, state_routes, get, mbind, M_bind.
  by rewrite Hreg.
Qed.

Lemma getRoute_uninitialised (w : World) (rid : string) :
  st_routes w = None → (getRoute rid w).1 = Throw (VObject (next_loc w)).
Proof.
  intros Hreg. unfold getRoute, state_routes, get, mbind, M_bind.
  by rewrite Hreg.
Qed.

Lemma getRequest_unfold (w : World) (rid qid : string) :
  getRequest rid qid w =
    match getRoute rid w with
    | (Normal (Own r), w') => (Normal (js_lookup (requests (route_heap w' r)) qid), w')
    | (Normal (Inherited _), w') =>
        throwTypeError "Cannot read properties of undefined" w'
    | (Normal Undefined, w') => (Normal Undefined, w')
    | (Throw e, w') => (Throw e, w')
    end.
Proof.
  unfold getRequest, mbind, M_bind.
  destruct (getRoute rid w) as [[[|r|name]|e] w']; reflexivity.
Qed.

Lemma getRequest_initialised (w : World) (reg : Loc) (rid qid : string) :
  st_routes w = Some reg →
  match js_lookup (registry_heap w reg) rid with
  | Undefined => getRequest rid qid w = (Normal Undefined, w)
  | Own r =>
      getRequest rid qid w = (Normal (js_lookup (requests (route_heap w r)) qid), w)
  | Inherited _ => (getRequest rid qid w).1 = Throw (VObject (next_loc w))
  end.
Proof.
  intros Hreg. rewrite getRequest_unfold, (getRoute_initialised w reg) by done.
  by destruct (js_lookup (registry_heap w reg) rid).
Qed.

(** C1, as amended.  Once [state('routes')] holds a routes object, [getRoute]
    returns absent for an identifier that the object does not hold and that
    names no member of [Object.prototype]; [getRequest] returns absent for
    such a route identifier, and for a held route whose ledger does not hold
    the request id when that id names no member of [Object.prototype].
    Neither raises nor changes anything in these cases. *)
Theorem lookups_absent_once_initialised (w : World) (reg : Loc) (rid qid : string) :
  st_routes w = Some reg →
  (registry_heap w reg !! rid = None → rid ∉ object_prototype_names →
     getRoute rid w = (Normal Undefined, w) ∧
     getRequest rid qid w = (Normal Undefined, w)) ∧
  (∀ r, registry_heap w reg !! rid = Some r →
     requests (route_heap w r) !! qid = None → qid ∉ object_prototype_names →
     getRequest rid qid w = (Normal Undefined, w)).
Proof.
  intros Hreg. pose proof (getRequest_initialised w reg rid qid Hreg) as Hreq.
  split.
  - intros Hrid Hname. rewrite (getRoute_initialised w reg) by done.
    rewrite (js_lookup_undefined _ _ Hrid Hname) in *. by split.
  - intros r Hrid Hqid Hname. unfold js_lookup at 1 in Hreq. rewrite Hrid in Hreq.
    by rewrite Hreq, (js_lookup_undefined _ _ Hqid Hname).
Qed.

Lemma lookups_absent_once_initialised_witness :
  getRoute "route9" sample_world = (Normal Undefined, sample_world) ∧
  getRequest "route9" "req1" sample_world = (Normal Undefined, sample_world) ∧
  getRequest "route1" "req9" sample_world = (Normal Undefined, sample_world).
Proof.
  destruct (lookups_absent_once_initialised sample_world 0 "route9" "req1" eq_refl)
    as [Habsent _].
  destruct (lookups_absent_once_initialised sample_world 0 "route1" "req9" eq_refl)
    as [_ Hledger].
  assert (Hroute9 : "route9" ∉ object_prototype_names)
    by (by apply (bool_decide_unpack _); vm_compute).
  assert (Hreq9 : "req9" ∉ object_prototype_names)
    by (by apply (bool_decide_unpack _); vm_compute).
  split; [exact (proj1 (Habsent eq_refl Hroute9)) |].
  split; [exact (proj2 (Habsent eq_refl Hroute9)) |].
  exact (Hledger 1 eq_refl eq_refl Hreq9).
Defined.

(** C1 fails as stated, in two ways.  After [registerEvents] and before the
    first ['test:before:run'], [state('routes')] is undefined and indexing it
    raises a [TypeError].  And with a routes object in place, an identifier
    it does not hold can still name an inherited member: ["constructor"]
    reads as that member, not as absent, and [getRequest] on it raises. *)
Lemma getRoute_raises_before_first_reset :
  let w := (registerEvents initial_world).2 in
  st_routes w = None ∧
  (getRoute "route1" w).1 = Throw (VObject 0) ∧
  (getRoute "route1" w).1 ≠ Normal Undefined ∧
  registry_heap sample_world 0 !! "constructor" = None ∧
  (getRoute "constructor" sample_world).1 = Normal (Inherited "constructor") ∧
  (getRequest "constructor" "req1" sample_world).1 = Throw (VObject 5) ∧
  (getRequest "route1" "toString" sample_world).1 = Normal (Inherited "toString").
Proof. by repeat split. Qed.

(** C5, as amended.  [getRequest] is the route lookup followed by the ledger
    lookup: absent when [getRoute] is absent, and what
    [route.requests[requestId]] reads when [getRoute] returns a Route.  It
    raises when [getRoute] raises, which is when [state('routes')] is
    undefined, and when [getRoute] returns a member inherited from
    [Object.prototype], which has no [requests]; in every other case it
    returns and changes nothing. *)
Theorem getRequest_is_route_then_ledger_lookup (w : World) (rid qid : string) :
  getRequest rid qid w =
    match getRoute rid w with
    | (Normal (Own r), w') => (Normal (js_lookup (requests (route_heap w' r)) qid), w')
    | (Normal (Inherited _), w') =>
        throwTypeError "Cannot read properties of undefined" w'
    | (Normal Undefined, w') => (Normal Undefined, w')
    | (Throw e, w') => (Throw e, w')
    end
  ∧ (∀ reg, st_routes w = Some reg →
       match js_lookup (registry_heap w reg) rid with
       | Undefined => getRequest rid qid w = (Normal Undefined, w)
       | Own r =>
           getRequest rid qid w =
             (Normal (js_lookup (requests (route_heap w r)) qid), w)
       | Inherited _ => (getRequest rid qid w).1 = Throw (VObject (next_loc w))
       end)
  ∧ (st_routes w = None →
       (getRequest rid qid w).1 = Throw (VObject (next_loc w)) ∧
       (getRoute rid w).1 = Throw (VObject (next_loc w))).
Proof.
  split; [apply getRequest_unfold |]. split.
  - intros reg Hreg. by apply getRequest_initialised.
  - intros Hreg. split; [| by apply getRoute_uninitialised].
    rewrite getRequest_unfold.
    pose proof (getRoute_uninitialised w rid Hreg) as Hthrow.
    destruct (getRoute rid w) as [[[|r|name]|e] w']; simpl in *; congruence.
Qed.

Lemma getRequest_is_route_then_ledger_lookup_witness :
  getRequest "route1" "req1" sample_world = (Normal (Own 2), sample_world) ∧
  (getRequest "route1" "req1" initial_world).1 = Throw (VObject 0).
Proof.
  destruct (getRequest_is_route_then_ledger_lookup sample_world "route1" "req1")
    as (_ & Hinit & _).
  destruct (getRequest_is_route_then_ledger_lookup initial_world "route1" "req1")
    as (_ & _ & Huninit).
  split; [exact (Hinit 0 eq_refl) | exact (proj1 (Huninit eq_refl))].
Defined.

(** C5 fails as stated: [getRequest] does fail.  With [state('routes')]
    undefined the route lookup inside it raises; and with a routes object in
    place, [getRoute] of ["constructor"] returns the inherited member, on
    which [route.requests[requestId]] raises. *)
Lemma getRequest_raises_before_first_reset :
  let w := (registerEvents initial_world).2 in
  (getRequest "route1" "req1" w).1 = Throw (VObject 0) ∧
  (∀ v, (getRequest "route1" "req1" w).1 ≠ Normal v) ∧
  (getRoute "constructor" sample_world).1 = Normal (Inherited "constructor") ∧
  (getRequest "constructor" "req1" sample_world).1 = Throw (VObject 5) ∧
  ∀ v, (getRequest "constructor" "req1" sample_world).1 ≠ Normal v.
Proof. by repeat split. Qed.

(** ** The test-boundary reset *)

Lemma resetRoutes_eq (w : World) :
  resetRoutes w =
    (Normal (),
     set_st_routes (Some (next_loc w))
       (set_registry_heap (<[next_loc w := ∅]> (registry_heap w))
          (set_next_loc (S (next_loc w)) w))).
Proof. reflexivity. Qed.

Lemma objects_kept_refl (w : World) : objects_kept w w.
Proof. by repeat split. Qed.

Lemma objects_kept_trans (w1 w2 w3 : World) :
  objects_kept w1 w2 → objects_kept w2 w3 → objects_kept w1 w3.
Proof.
  intros (Hr1 & Hq1 & He1 & Hn1 & Hg1) (Hr2 & Hq2 & He2 & Hn2 & Hg2).
  repeat split; try congruence; [lia |].
  intros r Hr. rewrite Hg2 by lia. by apply Hg1.
Qed.

Lemma resetRoutes_objects_kept (w : World) : objects_kept w (resetRoutes w).2.
Proof.
  rewrite resetRoutes_eq. repeat split; simpl; [lia |].
  intros r Hr. apply fn_lookup_insert_ne. lia.
Qed.

Lemma resetRoutes_fresh (w : World) : fresh_empty_registry w (resetRoutes w).2.
Proof.
  rewrite resetRoutes_eq. exists (next_loc w). simpl.
  split; [done |]. split; [lia |]. apply fn_lookup_insert.
Qed.

Lemma fresh_empty_registry_lookups (w w' : World) (rid qid : string) :
  fresh_empty_registry w w' → rid ∉ object_prototype_names →
  getRoute rid w' = (Normal Undefined, w') ∧
  getRequest rid qid w' = (Normal Undefined, w').
Proof.
  intros (r & Hslot & _ & Hempty) Hname.
  pose proof (getRequest_initialised w' r rid qid Hslot) as Hreq.
  rewrite (getRoute_initialised w' r) by done.
  rewrite Hempty in *.
  rewrite (js_lookup_undefined ∅ rid) in * by (done || apply lookup_empty).
  by split.
Qed.

Lemma fresh_empty_registry_inherited (w w' : World) (rid qid : string) :
  fresh_empty_registry w w' → rid ∈ object_prototype_names →
  getRoute rid w' = (Normal (Inherited rid), w') ∧
  (getRequest rid qid w').1 = Throw (VObject (next_loc w')).
Proof.
  intros (r & Hslot & _ & Hempty) Hname.
  pose proof (getRequest_initialised w' r rid qid Hslot) as Hreq.
  rewrite (getRoute_initialised w' r) by done.
  rewrite Hempty in *.
  rewrite (js_lookup_inherited ∅ rid) in * by (done || apply lookup_empty).
  by split.
Qed.

(** ** Failure attribution *)

Lemma failCurrentTest_eq (l : Loc) (w : World) :
  frozen (error_heap w l) = false →
  failCurrentTest (VObject l) w =
    (Normal (),
     set_immediates (immediates w ++ [TaskCyFail (VObject l)])
       (set_error_heap
          (<[l := mkErrorObj (message (error_heap w l)) true false]> (error_heap w))
          (set_trace (trace w ++ [CallFailCurrentTest (VObject l)]) w))).
Proof.
  intros Hfrozen.
  unfold failCurrentTest, tag_fromSpec, observe, setImmediate, modify, get, mbind, M_bind.
  simpl. by rewrite Hfrozen.
Qed.

(** On a reason that cannot take the property the call raises a new
    [TypeError] after recording itself, and defers nothing. *)
Lemma failCurrentTest_refused (err : Value) (w : World) :
  taggable w err = false →
  ∃ msg,
    failCurrentTest err w =
      (Throw (VObject (next_loc w)),
       set_error_heap (<[next_loc w := mkErrorObj msg false false]> (error_heap w))
         (set_next_loc (S (next_loc w))
            (set_trace (trace w ++ [CallFailCurrentTest err]) w))).
Proof.
  intros Htag.
  unfold failCurrentTest, tag_fromSpec, observe, setImmediate, modify, get, mbind, M_bind.
  destruct err as [| |repr|l]; simpl; try by eexists.
  simpl in Htag. apply negb_false_iff in Htag. rewrite Htag. by eexists.
Qed.

Lemma taggable_object (w : World) (l : Loc) :
  taggable w (VObject l) = true ↔ frozen (error_heap w l) = false.
Proof. simpl. apply negb_true_iff. Qed.

Lemma registry_unchanged_refl (w : World) : registry_unchanged w w.
Proof. by repeat split. Qed.

Lemma registry_unchanged_trans (w1 w2 w3 : World) :
  registry_unchanged w1 w2 → registry_unchanged w2 w3 → registry_unchanged w1 w3.
Proof.
  intros (? & ? & ? & ?) (? & ? & ? & ?). repeat split; congruence.
Qed.

Lemma failCurrentTest_calls_app (t1 t2 : list Call) :
  failCurrentTest_calls (t1 ++ t2) = failCurrentTest_calls t1 ++ failCurrentTest_calls t2.
Proof. apply omap_app. Qed.

Lemma cy_fail_calls_app (t1 t2 : list Call) :
  cy_fail_calls (t1 ++ t2) = cy_fail_calls t1 ++ cy_fail_calls t2.
Proof. apply omap_app. Qed.

Lemma cy_fail_calls_tasks (ts : list Task) :
  cy_fail_calls (map (λ t, CallCyFail (task_err t)) ts) = map task_err ts.
Proof. induction ts as [|t ts IH]; simpl; [done | by rewrite <- IH]. Qed.

(** One reaction: a single [failCurrentTest] call, then either the deferred
    task or the unhandled [TypeError]. *)
Lemma run_job_spec (reason : Value) (w : World) :
  let w' := run_job (CbFailCurrentTest, reason) w in
  jobs w' = jobs w ∧
  registry_unchanged w w' ∧
  promise_heap w' = promise_heap w ∧
  next_loc w ≤ next_loc w' ∧
  (∀ l, l < next_loc w → frozen (error_heap w' l) = frozen (error_heap w l)) ∧
  trace w' =
    trace w ++ CallFailCurrentTest reason ::
      (if taggable w reason then [] else [UnhandledRejection (VObject (next_loc w))]) ∧
  immediates w' =
    immediates w ++ (if taggable w reason then [TaskCyFail reason] else []).
Proof.
  cbv zeta. unfold run_job, run_callback. cbn [fst snd].
  destruct (taggable w reason) eqn:Htag.
  - destruct reason as [| |repr|l]; try done.
    apply taggable_object in Htag. rewrite (failCurrentTest_eq l w Htag). simpl.
    split; [done |]. split; [done |]. split; [done |]. split; [lia |].
    split; [| done].
    intros l' _. destruct (decide (l = l')) as [<- | Hne].
    + by rewrite fn_lookup_insert.
    + by rewrite fn_lookup_insert_ne.
  - destruct (failCurrentTest_refused reason w Htag) as [msg ->]. simpl.
    split; [done |]. split; [done |]. split; [done |]. split; [lia |].
    split; [| by rewrite <- app_assoc, app_nil_r].
    intros l Hl. rewrite fn_lookup_insert_ne by lia. done.
Qed.

Lemma run_jobs_add (n m : nat) (w : World) :
  run_jobs (n + m) w = run_jobs m (run_jobs n w).
Proof.
  revert w. induction n as [|n IH]; intros w; [done |]. simpl.
  destruct (step_job w) as [w'|] eqn:Hstep; [apply IH |].
  destruct m; simpl; by rewrite ?Hstep.
Qed.

(** Running reactions: the queue only shrinks, the registry stays as it is,
    and every reaction run calls [failCurrentTest] once on its reason. *)
Lemma run_jobs_spec (n : nat) (w : World) :
  jobs (run_jobs n w) = drop n (jobs w) ∧
  registry_unchanged w (run_jobs n w) ∧
  promise_heap (run_jobs n w) = promise_heap w ∧
  next_loc w ≤ next_loc (run_jobs n w) ∧
  (∀ l, l < next_loc w →
        frozen (error_heap (run_jobs n w) l) = frozen (error_heap w l)) ∧
  failCurrentTest_calls (trace (run_jobs n w)) =
    failCurrentTest_calls (trace w) ++ map snd (take n (jobs w)).
Proof.
  revert w. induction n as [|n IH]; intros w.
  - simpl. rewrite drop_0, app_nil_r. split; [done |].
    split; [apply registry_unchanged_refl |]. by repeat split.
  - simpl. unfold step_job. destruct (jobs w) as [|[[] reason] js] eqn:Hjobs.
    + simpl. rewrite app_nil_r. split; [done |].
      split; [apply registry_unchanged_refl |]. by repeat split.
    + pose proof (run_job_spec reason (set_jobs js w)) as Hjob. cbv zeta in Hjob.
      set (w1 := run_job _ _) in *. simpl in Hjob.
      destruct Hjob as (Hj & Hr & Hp & Hn & Hf & Ht & _).
      destruct (IH w1) as (Hj' & Hr' & Hp' & Hn' & Hf' & Ht').
      split; [by rewrite Hj', Hj |].
      split; [eapply registry_unchanged_trans; [| exact Hr']; exact Hr |].
      split; [congruence |]. split; [lia |].
      split; [intros l Hl; rewrite Hf' by lia; by apply Hf |].
      rewrite Ht', Ht, Hj, failCurrentTest_calls_app. simpl.
      rewrite <- app_assoc. f_equal.
      by destruct (taggable _ reason).
Qed.

Lemma drain_jobs_calls (w : World) :
  jobs (drain_jobs w) = [] ∧
  registry_unchanged w (drain_jobs w) ∧
  failCurrentTest_calls (trace (drain_jobs w)) =
    failCurrentTest_calls (trace w) ++ map snd (jobs w).
Proof.
  unfold drain_jobs.
  destruct (run_jobs_spec (length (jobs w)) w) as (Hj & Hr & _ & _ & _ & Ht).
  rewrite Hj, Ht, drop_all, firstn_all. done.
Qed.

(** The reaction queued last runs last. *)
Lemma delivers_last (w : World) (js : list (Callback * Value)) (reason : Value) :
  jobs w = js ++ [(CbFailCurrentTest, reason)] →
  delivers w (length js) reason.
Proof.
  intros Hjobs. unfold delivers. cbv zeta.
  destruct (run_jobs_spec (length js) w) as (Hj & _).
  rewrite Hjobs, drop_app_length in Hj.
  set (turn := run_jobs (length js) w) in *.
  assert (Hdrain : drain_jobs w = run_jobs 1 turn).
  { unfold drain_jobs. rewrite Hjobs, length_app. simpl. apply run_jobs_add. }
  assert (Hone : run_jobs 1 turn = run_job (CbFailCurrentTest, reason) (set_jobs [] turn)).
  { simpl. unfold step_job. by rewrite Hj. }
  pose proof (run_job_spec reason (set_jobs [] turn)) as Hjob. cbv zeta in Hjob.
  rewrite <- Hone, <- Hdrain in Hjob. simpl in Hjob.
  destruct Hjob as (Hj' & _ & _ & _ & _ & Ht & Hi).
  split; [done |]. split; [done |]. split; [done |]. by split.
Qed.

Lemma run_jobs_keeps_taggable (n : nat) (w : World) (l : Loc) :
  l < next_loc w → frozen (error_heap w l) = false →
  taggable (run_jobs n w) (VObject l) = true.
Proof.
  intros Hl Hfrozen. apply taggable_object.
  destruct (run_jobs_spec n w) as (_ & _ & _ & _ & Hf & _). by rewrite Hf.
Qed.

(** Running the deferred tasks: each one calls [Cypress.cy.fail] on its
    error and alters no error object. *)
Lemma run_immediates_spec (ts : list Task) (n : nat) (w : World) :
  immediates w = ts → length ts ≤ n →
  immediates (run_immediates n w) = [] ∧
  trace (run_immediates n w) = trace w ++ map (λ t, CallCyFail (task_err t)) ts ∧
  error_heap (run_immediates n w) = error_heap w.
Proof.
  revert n w. induction ts as [|t ts IH]; intros n w Hts Hlen.
  - destruct n; simpl; unfold step_immediate; rewrite ?Hts, !app_nil_r; done.
  - destruct n as [|n]; [simpl in Hlen; lia |].
    simpl. unfold step_immediate. rewrite Hts. destruct t as [err].
    set (w1 := (run_task (TaskCyFail err) (set_immediates ts w)).2).
    destruct (IH n w1) as (Hi & Ht & He); [done | simpl in Hlen; lia |].
    split; [done |].
    split; [rewrite Ht; subst w1; simpl; by rewrite <- app_assoc |].
    by rewrite He.
Qed.

(** C6, as amended.  Every call to [failCurrentTest] on an object that can
    take the property returns with the object marked [fromSpec] and the
    failing action still queued; when the queue is later run,
    [Cypress.cy.fail] receives that object, still marked, after the call
    that marked it. *)
Theorem failCurrentTest_tags_before_deferred_fail (w : World) (l : Loc) :
  frozen (error_heap w l) = false →
  let err := VObject l in
  let w' := (failCurrentTest err w).2 in
  (failCurrentTest err w).1 = Normal () ∧
  fromSpec (error_heap w' l) = true ∧
  message (error_heap w' l) = message (error_heap w l) ∧
  immediates w' = immediates w ++ [TaskCyFail err] ∧
  trace w' = trace w ++ [CallFailCurrentTest err] ∧
  trace (drain_immediates w') =
    trace w ++ [CallFailCurrentTest err]
      ++ map (λ t, CallCyFail (task_err t)) (immediates w) ++ [CallCyFail err] ∧
  fromSpec (error_heap (drain_immediates w') l) = true.
Proof.
  intros Hfrozen. cbv zeta. rewrite (failCurrentTest_eq l w Hfrozen).
  set (w' := (_, _).2).
  assert (Htag : error_heap w' l = mkErrorObj (message (error_heap w l)) true false)
    by (subst w'; simpl; apply fn_lookup_insert).
  destruct (run_immediates_spec (immediates w') (length (immediates w')) w')
    as (_ & Htrace & Herr); [done | done |].
  split; [done |].
  split; [by rewrite Htag |].
  split; [by rewrite Htag |].
  split; [done |].
  split; [done |].
  split.
  - unfold drain_immediates. rewrite Htrace. subst w'. simpl.
    by rewrite map_app, <- !app_assoc.
  - unfold drain_immediates. by rewrite Herr, Htag.
Qed.

Lemma failCurrentTest_tags_before_deferred_fail_witness :
  let w' := (failCurrentTest (VObject 3) sample_world).2 in
  fromSpec (error_heap w' 3) = true ∧
  immediates w' = [TaskCyFail (VObject 3)] ∧
  trace (drain_immediates w') =
    [CallFailCurrentTest (VObject 3); CallCyFail (VObject 3)].
Proof.
  pose proof (failCurrentTest_tags_before_deferred_fail sample_world 3 eq_refl) as H.
  cbv zeta in H. destruct H as (_ & Htag & _ & Himm & _ & Htrace & _).
  cbv zeta. split; [exact Htag |]. split; [exact Himm | exact Htrace].
Defined.

(** C6 fails as stated: [.catch(failCurrentTest)] hands over whatever the
    handler rejected with.  On [undefined], and on a frozen error object,
    the assignment raises; nothing is marked and nothing is queued. *)
Lemma failCurrentTest_raises_on_untaggable_reason :
  (failCurrentTest VUndefined sample_world).1 = Throw (VObject 5) ∧
  immediates (failCurrentTest VUndefined sample_world).2 = [] ∧
  (failCurrentTest (VObject 4) sample_world).1 = Throw (VObject 5) ∧
  fromSpec (error_heap (failCurrentTest (VObject 4) sample_world).2 4) = false ∧
  immediates (failCurrentTest (VObject 4) sample_world).2 = [].
Proof. by repeat split. Qed.

(** C7, as amended.  No call to [failCurrentTest], whatever the reason,
    invokes [Cypress.cy.fail] before it ends.  When the reason is an object
    that can take the property, the call returns with the failing action in
    the [setImmediate] queue, which runs on a later turn; run as a rejection
    reaction the call then completes normally, so no unhandled rejection is
    recorded. *)
Theorem failCurrentTest_defers_cy_fail (w : World) (err : Value) :
  let w' := (failCurrentTest err w).2 in
  cy_fail_calls (trace w') = cy_fail_calls (trace w) ∧
  (taggable w err = true →
   (failCurrentTest err w).1 = Normal () ∧
   immediates w' = immediates w ++ [TaskCyFail err] ∧
   run_job (CbFailCurrentTest, err) w = w' ∧
   drop (length (trace w)) (trace w') = [CallFailCurrentTest err] ∧
   cy_fail_calls (trace (drain_immediates w')) =
     cy_fail_calls (trace w) ++ map task_err (immediates w) ++ [err]).
Proof.
  cbv zeta. split.
  - destruct (taggable w err) eqn:Htag.
    + destruct err as [| |repr|l]; try done. apply taggable_object in Htag.
      rewrite (failCurrentTest_eq l w Htag). simpl.
      rewrite cy_fail_calls_app. simpl. by rewrite app_nil_r.
    + destruct (failCurrentTest_refused err w Htag) as [msg ->]. simpl.
      rewrite cy_fail_calls_app. simpl. by rewrite app_nil_r.
  - intros Htag. destruct err as [| |repr|l]; try done.
    apply taggable_object in Htag.
    unfold run_job, run_callback. cbn [fst snd].
    rewrite (failCurrentTest_eq l w Htag).
    set (w' := (_, _).2).
    destruct (run_immediates_spec (immediates w') (length (immediates w')) w')
      as (_ & Htrace & _); [done | done |].
    split; [done |]. split; [done |]. split; [done |].
    split.
    + subst w'. simpl. by rewrite drop_app_length.
    + unfold drain_immediates. rewrite Htrace. subst w'. simpl.
      rewrite !cy_fail_calls_app, cy_fail_calls_tasks, map_app. simpl.
      by rewrite app_nil_r.
Qed.

Lemma failCurrentTest_defers_cy_fail_witness :
  let w' := (failCurrentTest (VObject 3) sample_world).2 in
  cy_fail_calls (trace w') = [] ∧
  immediates w' = [TaskCyFail (VObject 3)] ∧
  cy_fail_calls (trace (drain_immediates w')) = [VObject 3].
Proof.
  pose proof (failCurrentTest_defers_cy_fail sample_world (VObject 3)) as H.
  cbv zeta in H. destruct H as (Hsync & Hrest).
  destruct (Hrest eq_refl) as (_ & Himm & _ & _ & Hlater).
  cbv zeta. split; [exact Hsync |]. split; [exact Himm | exact Hlater].
Defined.

(** C7 fails as stated: run as the rejection reaction of a handler that
    rejected with [undefined], [failCurrentTest] raises; nothing is
    deferred, [Cypress.cy.fail] is never called, and the [TypeError] is an
    unhandled rejection. *)
Lemma failCurrentTest_reaction_unhandled_on_undefined :
  let w' := run_job (CbFailCurrentTest, VUndefined) sample_world in
  (failCurrentTest VUndefined sample_world).1 ≠ Normal () ∧
  trace w' = [CallFailCurrentTest VUndefined; UnhandledRejection (VObject 5)] ∧
  immediates w' = [] ∧
  cy_fail_calls (trace (drain_immediates w')) = [].
Proof. by repeat split. Qed.

(** C8.  [emitNetEvent] hands the host exactly one message, on the ['net']
    channel, whose arguments are the event name and the frame as given, and
    returns the pending promise of that round trip; nothing else changes.
    It is what [registerEvents] exports. *)
Theorem emitNetEvent_sends_one_envelope (w : World) (eventName : string) (frame : Frame) :
  let sent := emitNetEvent eventName frame w in
  sent.1 = Normal (next_loc w) ∧
  outbox sent.2 = outbox w ++ [mkBackendRequest "net" [JString eventName; JFrame frame]] ∧
  promise_heap sent.2 (next_loc w) = Pending [] ∧
  (∀ p, p ≠ next_loc w → promise_heap sent.2 p = promise_heap w p) ∧
  registry_unchanged w sent.2 ∧
  trace sent.2 = trace w ∧
  jobs sent.2 = jobs w ∧
  immediates sent.2 = immediates w ∧
  error_heap sent.2 = error_heap w ∧
  (registerEvents w).1 = Normal (mkExports emitNetEvent).
Proof.
  cbv zeta. unfold emitNetEvent, Cypress_backend, mbind, M_bind, fresh, modify, mret, M_ret.
  simpl. split; [done |]. split; [done |].
  split; [apply fn_lookup_insert |].
  split; [intros p Hp; by apply fn_lookup_insert_ne |].
  by repeat split.
Qed.

Section DispatcherFacts.

Context (onRequestReceived onResponseReceived onRequestComplete : HandlerFn).

Local Abbreviation run_listeners' :=
  (run_listeners onRequestReceived onResponseReceived onRequestComplete).
Local Abbreviation Cypress_emit' :=
  (Cypress_emit onRequestReceived onResponseReceived onRequestComplete).
Local Abbreviation onNetEvent' :=
  (onNetEvent onRequestReceived onResponseReceived onRequestComplete).
Local Abbreviation netEventHandlers' :=
  (netEventHandlers onRequestReceived onResponseReceived onRequestComplete).

Lemma run_listeners_cons (l : Listener) (ls : list Listener) (ev : CyEvent) (w : World) :
  run_listeners' (l :: ls) ev w =
    match run_listener onRequestReceived onResponseReceived onRequestComplete l ev w with
    | (Normal _, w') => run_listeners' ls ev w'
    | (Throw e, w') => (Throw e, w')
    end.
Proof. reflexivity. Qed.

(** Firing ['test:before:run'] runs each subscribed reset in turn. *)
Lemma fire_test_before_run (ls : list Listener) (w : World) :
  let fired :=
    run_listeners' (filter (λ l, subscribed_to l = event_name TestBeforeRun) ls)
      TestBeforeRun w in
  fired.1 = Normal () ∧
  objects_kept w fired.2 ∧
  (ResetRoutesListener ∈ ls → fresh_empty_registry w fired.2) ∧
  (ResetRoutesListener ∉ ls → fired.2 = w).
Proof.
  revert w. induction ls as [|l ls IH]; intros w; cbv zeta.
  - simpl. split; [done |]. split; [apply objects_kept_refl |].
    split; [by intros ?%elem_of_nil | done].
  - destruct l.
    + rewrite filter_cons_True by done. rewrite run_listeners_cons.
      unfold run_listener. rewrite resetRoutes_eq. cbv beta iota zeta.
      pose proof (resetRoutes_objects_kept w) as Hkept.
      pose proof (resetRoutes_fresh w) as Hfresh.
      rewrite resetRoutes_eq in Hkept, Hfresh. simpl in Hkept, Hfresh.
      set (w1 := set_st_routes _ _) in *.
      destruct (IH w1) as (Hret & Hkept' & Hin & Hout).
      split; [done |].
      split; [by eapply objects_kept_trans |].
      split; [| intros []; by left].
      intros _. destruct (decide (ResetRoutesListener ∈ ls)) as [Hmem | Hmem].
      * destruct (Hin Hmem) as (r & Hslot & Hge & Hempty).
        exists r. split; [done |]. split; [| done].
        destruct Hkept as (_ & _ & _ & Hle & _). lia.
      * by rewrite (Hout Hmem).
    + rewrite filter_cons_False by done.
      destruct (IH w) as (Hret & Hkept & Hin & Hout).
      split; [done |]. split; [done |].
      split.
      * intros [Heq | Hmem]%elem_of_cons; [done | by apply Hin].
      * intros Hmem. apply Hout. intros ?. apply Hmem. by right.
Qed.

Lemma registerEvents_eq (w : World) :
  registerEvents w =
    (Normal (mkExports emitNetEvent),
     set_listeners
       ((listeners w ++ [ResetRoutesListener]) ++ [NetEventListener]) w).
Proof. reflexivity. Qed.

Lemma fire_after_registerEvents (w : World) :
  let fired := Cypress_emit' TestBeforeRun (registerEvents w).2 in
  fired.1 = Normal () ∧
  objects_kept w fired.2 ∧
  fresh_empty_registry w fired.2.
Proof.
  rewrite registerEvents_eq. simpl.
  unfold Cypress_emit, get, mbind, M_bind. simpl.
  set (w1 := set_listeners _ w).
  destruct (fire_test_before_run
              ((listeners w ++ [ResetRoutesListener]) ++ [NetEventListener]) w1)
    as (Hret & Hkept & Hin & _).
  split; [done |]. split; [done |].
  apply Hin. set_solver.
Qed.

(** C4, as amended.  After [registerEvents], firing ['test:before:run']
    returns, and from then on [getRoute] is absent for every route
    identifier that names no member of [Object.prototype], and [getRequest]
    for every pair with such a route identifier, whatever was registered
    before. *)
Theorem reset_hook_clears_lookups (w : World) (rid qid : string) :
  rid ∉ object_prototype_names →
  let fired := Cypress_emit' TestBeforeRun (registerEvents w).2 in
  fired.1 = Normal () ∧
  getRoute rid fired.2 = (Normal Undefined, fired.2) ∧
  getRequest rid qid fired.2 = (Normal Undefined, fired.2).
Proof.
  intros Hname. destruct (fire_after_registerEvents w) as (Hret & _ & Hfresh).
  split; [done |]. by eapply fresh_empty_registry_lookups.
Qed.

(** C9, as amended.  The reset stores a new routes object without own
    properties under [state('routes')] and touches no existing object:
    every Route (with its request ledger), every Request and every earlier
    routes object is as it was, so a Route obtained before the reset still
    reads the same.  Lookups made after the reset are absent for every
    route identifier that names no member of [Object.prototype]. *)
Theorem reset_hook_installs_fresh_registry (w : World) :
  let w' := (Cypress_emit' TestBeforeRun (registerEvents w).2).2 in
  fresh_empty_registry w w' ∧
  route_heap w' = route_heap w ∧
  request_heap w' = request_heap w ∧
  (∀ reg, reg < next_loc w → registry_heap w' reg = registry_heap w reg) ∧
  (∀ rid r, (getRoute rid w).1 = Normal (Own r) →
     route_config (route_heap w' r) = route_config (route_heap w r) ∧
     requests (route_heap w' r) = requests (route_heap w r)) ∧
  (∀ rid qid, rid ∉ object_prototype_names →
     getRoute rid w' = (Normal Undefined, w') ∧
     getRequest rid qid w' = (Normal Undefined, w')).
Proof.
  destruct (fire_after_registerEvents w) as (_ & Hkept & Hfresh).
  destruct Hkept as (Hroutes & Hreqs & _ & _ & Hregs).
  cbv zeta. split; [done |]. split; [done |]. split; [done |]. split; [done |].
  split.
  - intros rid r _. by rewrite Hroutes.
  - intros rid qid Hname. by eapply fresh_empty_registry_lookups.
Qed.

(** After the hook, an inherited name still reads as the inherited member. *)
Lemma reset_hook_inherited_names (w : World) (rid qid : string) :
  rid ∈ object_prototype_names →
  let w' := (Cypress_emit' TestBeforeRun (registerEvents w).2).2 in
  getRoute rid w' = (Normal (Inherited rid), w') ∧
  (getRequest rid qid w').1 = Throw (VObject (next_loc w')).
Proof.
  intros Hname. destruct (fire_after_registerEvents w) as (_ & _ & Hfresh).
  by eapply fresh_empty_registry_inherited.
Qed.

(** ** Dispatch of inbound events *)

Local Abbreviation invokeHandler' :=
  (invokeHandler onRequestReceived onResponseReceived onRequestComplete).

Lemma netEventHandlers_not_own (eventName : string) :
  eventName ≠ "http:request:received" →
  eventName ≠ "http:response:received" →
  eventName ≠ "http:request:complete" →
  netEventHandlers' eventName =
    if bool_decide (eventName ∈ object_prototype_names) then Builtin eventName
    else Missing.
Proof.
  intros H1 H2 H3. unfold netEventHandlers.
  apply String.eqb_neq in H1, H2, H3. by rewrite H1, H2, H3.
Qed.

(** A name that is not in the table and is neither ["constructor"] nor
    ["toString"]: the call raises a new [TypeError]. *)
Lemma invokeHandler_raises (eventName : string) (frame : Frame) (w : World) :
  eventName ≠ "http:request:received" →
  eventName ≠ "http:response:received" →
  eventName ≠ "http:request:complete" →
  eventName ≠ "constructor" →
  eventName ≠ "toString" →
  ∃ msg,
    invokeHandler' eventName frame w =
      (Throw (VObject (next_loc w)),
       set_error_heap (<[next_loc w := mkErrorObj msg false false]> (error_heap w))
         (set_next_loc (S (next_loc w)) w)).
Proof.
  intros H1 H2 H3 H4 H5. unfold invokeHandler.
  rewrite (netEventHandlers_not_own eventName H1 H2 H3).
  case_bool_decide; [| by eexists].
  unfold call_builtin. rewrite bool_decide_eq_false_2; [by eexists |].
  intros Hin. repeat (apply elem_of_cons in Hin as [? | Hin]); try done.
  by apply elem_of_nil in Hin.
Qed.

(** ["constructor"] and ["toString"] are found on [Object.prototype] and
    return when called: nothing is raised and nothing changes. *)
Lemma invokeHandler_silent (eventName : string) (frame : Frame) (w : World) :
  eventName ∈ ["constructor"; "toString"] →
  invokeHandler' eventName frame w = (Normal RetVoid, w).
Proof.
  intros Hin.
  repeat (apply elem_of_cons in Hin as [-> | Hin]); [done | done |].
  by apply elem_of_nil in Hin.
Qed.

Lemma onNetEvent_throw (eventName : string) (frame : Frame) (w w1 : World) (e : Value) :
  invokeHandler' eventName frame w = (Throw e, w1) →
  onNetEvent' eventName frame w =
    (Normal (),
     set_jobs (jobs w1 ++ [(CbFailCurrentTest, e)])
       (set_promise_heap (<[next_loc w1 := Rejected e]> (promise_heap w1))
          (set_next_loc (S (next_loc w1)) w1))).
Proof.
  intros Hinv. unfold onNetEvent, Bluebird_try, mbind, M_bind. rewrite Hinv.
  unfold new_promise, Bluebird_catch, fresh, modify, mbind, M_bind, mret, M_ret.
  simpl. by rewrite fn_lookup_insert.
Qed.

Lemma onNetEvent_void (eventName : string) (frame : Frame) (w w1 : World) :
  invokeHandler' eventName frame w = (Normal RetVoid, w1) →
  onNetEvent' eventName frame w =
    (Normal (),
     set_promise_heap (<[next_loc w1 := Fulfilled]> (promise_heap w1))
       (set_next_loc (S (next_loc w1)) w1)).
Proof.
  intros Hinv. unfold onNetEvent, Bluebird_try, mbind, M_bind. rewrite Hinv.
  unfold new_promise, Bluebird_catch, fresh, modify, mbind, M_bind, mret, M_ret.
  simpl. by rewrite fn_lookup_insert.
Qed.

Lemma onNetEvent_promise (eventName : string) (frame : Frame) (w w1 : World) (p : Loc) :
  invokeHandler' eventName frame w = (Normal (RetPromise p), w1) →
  onNetEvent' eventName frame w =
    (Normal (),
     match promise_heap w1 p with
     | Rejected e => set_jobs (jobs w1 ++ [(CbFailCurrentTest, e)]) w1
     | Fulfilled => w1
     | Pending rs =>
         set_promise_heap (<[p := Pending (rs ++ [CbFailCurrentTest])]> (promise_heap w1)) w1
     end).
Proof.
  intros Hinv. unfold onNetEvent, Bluebird_try, mbind, M_bind. by rewrite Hinv.
Qed.

Lemma onNetEvent_returns (eventName : string) (frame : Frame) (w : World) :
  (onNetEvent' eventName frame w).1 = Normal ().
Proof.
  destruct (invokeHandler' eventName frame w) as [[[|p]|e] w1] eqn:Hinv.
  - by rewrite (onNetEvent_void _ _ _ _ Hinv).
  - by rewrite (onNetEvent_promise _ _ _ _ _ Hinv).
  - by rewrite (onNetEvent_throw _ _ _ _ _ Hinv).
Qed.

Lemma fire_net_event (eventName : string) (frame : Frame) (ls : list Listener) (w : World) :
  (run_listeners'
     (filter (λ l, subscribed_to l = event_name (NetEvent eventName frame)) ls)
     (NetEvent eventName frame) w).1 = Normal ().
Proof.
  revert w. induction ls as [|l ls IH]; intros w; [done |].
  destruct l.
  - by rewrite filter_cons_False.
  - rewrite filter_cons_True by done. rewrite run_listeners_cons.
    unfold run_listener.
    pose proof (onNetEvent_returns eventName frame w) as Hret.
    destruct (onNetEvent' eventName frame w) as [[[]|e] w1]; [apply IH | done].
Qed.

(** C2, as amended.  An inbound event whose name is none of the three in the
    handler table and is neither ["constructor"] nor ["toString"] makes the
    listener return normally with one rejection reaction queued.  When that
    reaction's turn comes it calls [failCurrentTest] exactly once, on the
    [TypeError] of the failed call, and queues its failing action; once the
    ready reactions have run there is exactly one more [failCurrentTest]
    call than without the event, and the registry slot, the routes objects
    and every Route, ledger and Request are as before. *)
Theorem unknown_event_fails_test_once (w : World) (eventName : string) (frame : Frame) :
  eventName ≠ "http:request:received" →
  eventName ≠ "http:response:received" →
  eventName ≠ "http:request:complete" →
  eventName ≠ "constructor" →
  eventName ≠ "toString" →
  let dispatched := onNetEvent' eventName frame w in
  let err := VObject (next_loc w) in
  let turn := run_jobs (length (jobs w)) dispatched.2 in
  dispatched.1 = Normal () ∧
  jobs dispatched.2 = jobs w ++ [(CbFailCurrentTest, err)] ∧
  trace dispatched.2 = trace w ∧
  trace (drain_jobs dispatched.2) = trace turn ++ [CallFailCurrentTest err] ∧
  immediates (drain_jobs dispatched.2) = immediates turn ++ [TaskCyFail err] ∧
  failCurrentTest_calls (trace (drain_jobs dispatched.2)) =
    failCurrentTest_calls (trace (drain_jobs w)) ++ [err] ∧
  registry_unchanged w dispatched.2 ∧
  registry_unchanged w (drain_jobs dispatched.2).
Proof.
  intros H1 H2 H3 H4 H5. cbv zeta.
  destruct (invokeHandler_raises eventName frame w H1 H2 H3 H4 H5) as [msg Hinv].
  rewrite (onNetEvent_throw _ _ _ _ _ Hinv).
  set (w2 := (_, _).2).
  assert (Hreg : registry_unchanged w w2) by (by repeat split).
  assert (Hjobs : jobs w2 = jobs w ++ [(CbFailCurrentTest, VObject (next_loc w))]) by done.
  destruct (delivers_last w2 _ _ Hjobs) as (_ & _ & _ & Htrace & Himm).
  assert (Htag : taggable (run_jobs (length (jobs w)) w2) (VObject (next_loc w)) = true).
  { apply run_jobs_keeps_taggable; subst w2; simpl; [lia | by rewrite fn_lookup_insert]. }
  rewrite Htag in Htrace, Himm.
  destruct (drain_jobs_calls w) as (_ & _ & Hcalls).
  destruct (drain_jobs_calls w2) as (_ & Hreg2 & Hcalls2).
  split; [done |]. split; [done |]. split; [done |].
  split; [done |]. split; [done |].
  split; [by rewrite Hcalls2, Hcalls, Hjobs, map_app, app_assoc |].
  split; [done |]. by eapply registry_unchanged_trans.
Qed.

(** C3, as amended.  Whatever handler the table resolves, the listener
    returns normally.  If the handler raises [e], or returns a promise
    already rejected with [e], or returns a pending promise that is later
    rejected with [e], then [e] reaches [failCurrentTest]: the reaction is
    queued last, and when its turn comes it calls [failCurrentTest] on [e]
    exactly once.  If [e] is an object that can take the [fromSpec]
    property, the failing action is deferred and nothing else is recorded;
    otherwise that call raises and its [TypeError] is left as an unhandled
    rejection.  A plain return, an already fulfilled promise and a later
    fulfilment queue nothing. *)
Theorem handler_failures_reach_failCurrentTest
    (w : World) (eventName : string) (frame : Frame) (handler : HandlerFn) :
  netEventHandlers' eventName = Handler handler →
  let w2 := (onNetEvent' eventName frame w).2 in
  (onNetEvent' eventName frame w).1 = Normal () ∧
  match handler frame handlerOpts w with
  | (Throw e, w1) => trace w2 = trace w1 ∧ delivers w2 (length (jobs w1)) e
  | (Normal (RetPromise p), w1) =>
      match promise_heap w1 p with
      | Rejected e => trace w2 = trace w1 ∧ delivers w2 (length (jobs w1)) e
      | Pending rs =>
          trace w2 = trace w1 ∧ jobs w2 = jobs w1 ∧
          (∀ e, delivers (reject_promise p e w2) (length (jobs w1) + length rs) e) ∧
          jobs (fulfil_promise p w2) = jobs w1 ∧
          trace (fulfil_promise p w2) = trace w1
      | Fulfilled => w2 = w1
      end
  | (Normal RetVoid, w1) => trace w2 = trace w1 ∧ jobs w2 = jobs w1
  end.
Proof.
  intros Hsome. cbv zeta. split; [apply onNetEvent_returns |].
  assert (Hinv : invokeHandler' eventName frame w = handler frame handlerOpts w)
    by (unfold invokeHandler; by rewrite Hsome).
  destruct (handler frame handlerOpts w) as [[[|p]|e] w1] eqn:Hrun.
  - by rewrite (onNetEvent_void _ _ _ _ Hinv).
  - rewrite (onNetEvent_promise _ _ _ _ _ Hinv). cbn [snd].
    destruct (promise_heap w1 p) as [rs| |e] eqn:Hp.
    + split; [done |]. split; [done |]. split; [| split].
      * intros e. rewrite <- length_map with (f := λ cb : Callback, (cb, e)).
        rewrite <- length_app. apply delivers_last.
        unfold reject_promise. simpl. rewrite fn_lookup_insert. simpl.
        by rewrite map_app, app_assoc.
      * unfold fulfil_promise. simpl. by rewrite fn_lookup_insert.
      * unfold fulfil_promise. simpl. by rewrite fn_lookup_insert.
    + done.
    + split; [done |]. by apply delivers_last.
  - rewrite (onNetEvent_throw _ _ _ _ _ Hinv). split; [done |]. by apply delivers_last.
Qed.

(** C10.  For every event name and frame the ['net:event'] listener returns
    normally: [Bluebird.try] turns any raise of the lookup or of the handler
    into a promise, and attaching [failCurrentTest] with [catch] cannot
    raise.  The same holds when the event is fired through the emitter after
    [registerEvents]. *)
Theorem net_event_listener_returns_normally
    (w : World) (eventName : string) (frame : Frame) :
  (∃ p, (Bluebird_try (invokeHandler' eventName frame) w).1 = Normal p) ∧
  (onNetEvent' eventName frame w).1 = Normal () ∧
  (Cypress_emit' (NetEvent eventName frame) (registerEvents w).2).1 = Normal ().
Proof.
  split; [| split].
  - unfold Bluebird_try.
    destruct (invokeHandler' eventName frame w) as [[[|p]|e] w1]; by eexists.
  - apply onNetEvent_returns.
  - rewrite registerEvents_eq. unfold Cypress_emit, get, mbind, M_bind.
    apply fire_net_event.
Qed.

End DispatcherFacts.

(** ** The theorems at work on the sample world *)

Lemma reset_hook_clears_lookups_witness :
  let fired :=
    Cypress_emit noopHandler noopHandler noopHandler TestBeforeRun
      (registerEvents sample_world).2 in
  getRoute "route1" fired.2 = (Normal Undefined, fired.2) ∧
  getRequest "route1" "req1" fired.2 = (Normal Undefined, fired.2).
Proof.
  assert (Hname : "route1" ∉ object_prototype_names)
    by (by apply (bool_decide_unpack _); vm_compute).
  pose proof (reset_hook_clears_lookups noopHandler noopHandler noopHandler
                sample_world "route1" "req1" Hname) as H.
  cbv zeta in H. exact (proj2 H).
Defined.

(** C4 fails as stated: after the reset hook has fired, [getRoute] of
    ["constructor"] is the member every plain object inherits, not absent,
    and [getRequest] of a pair with that route identifier raises. *)
Lemma reset_hook_leaves_inherited_names :
  let fired :=
    Cypress_emit noopHandler noopHandler noopHandler TestBeforeRun
      (registerEvents sample_world).2 in
  (getRoute "constructor" fired.2).1 = Normal (Inherited "constructor") ∧
  (getRoute "constructor" fired.2).1 ≠ Normal Undefined ∧
  (getRequest "constructor" "req1" fired.2).1 = Throw (VObject 6) ∧
  (getRequest "constructor" "req1" fired.2).1 ≠ Normal Undefined.
Proof. by repeat split. Qed.

(** C9 fails as stated in its last part: the new routes object has no own
    property, yet a lookup made after the reset is not absent at the names
    it inherits, such as ["toString"] and ["__proto__"]. *)
Lemma reset_registry_reads_inherited_names :
  let w' :=
    (Cypress_emit noopHandler noopHandler noopHandler TestBeforeRun
       (registerEvents sample_world).2).2 in
  (∃ r, st_routes w' = Some r ∧ registry_heap w' r = ∅) ∧
  (getRoute "toString" w').1 = Normal (Inherited "toString") ∧
  (getRoute "__proto__" w').1 = Normal (Inherited "__proto__") ∧
  (getRequest "toString" "req1" w').1 = Throw (VObject 6).
Proof. split; [by exists 5 | by repeat split]. Qed.

Lemma unknown_event_fails_test_once_witness :
  let dispatched :=
    onNetEvent noopHandler throwingHandler emittingHandler
      "http:request:aborted" sample_frame sample_world in
  dispatched.1 = Normal () ∧
  trace (drain_jobs dispatched.2) = [CallFailCurrentTest (VObject 5)] ∧
  immediates (drain_jobs dispatched.2) = [TaskCyFail (VObject 5)] ∧
  registry_unchanged sample_world (drain_jobs dispatched.2).
Proof.
  pose proof (unknown_event_fails_test_once noopHandler throwingHandler emittingHandler
                sample_world "http:request:aborted" sample_frame
                ltac:(done) ltac:(done) ltac:(done) ltac:(done) ltac:(done)) as H.
  cbv zeta in H. destruct H as (Hret & _ & _ & Htrace & Himm & _ & _ & Hreg).
  cbv zeta. split; [exact Hret |]. split; [exact Htrace |].
  split; [exact Himm | exact Hreg].
Defined.

(** C2 fails as stated: ["toString"] and ["constructor"] are not among the
    three names, but the table, a plain object, finds them on
    [Object.prototype]; the call returns, no reaction is queued and
    [failCurrentTest] is never called. *)
Lemma unknown_event_toString_silently_ignored :
  let dispatched :=
    onNetEvent noopHandler throwingHandler emittingHandler
      "toString" sample_frame sample_world in
  "toString" ≠ "http:request:received" ∧
  "toString" ≠ "http:response:received" ∧
  "toString" ≠ "http:request:complete" ∧
  dispatched.1 = Normal () ∧
  jobs dispatched.2 = [] ∧
  failCurrentTest_calls (trace (drain_jobs dispatched.2)) = [] ∧
  immediates (drain_jobs dispatched.2) = [] ∧
  failCurrentTest_calls
    (trace (drain_jobs
              (onNetEvent noopHandler throwingHandler emittingHandler
                 "constructor" sample_frame sample_world).2)) = [].
Proof. by repeat split. Qed.

Lemma handler_failures_reach_failCurrentTest_witness :
  trace (drain_jobs
           (onNetEvent noopHandler throwingHandler emittingHandler
              "http:response:received" sample_frame sample_world).2)
    = [CallFailCurrentTest (VObject 3)] ∧
  trace (drain_jobs
           (reject_promise 5 (VObject 3)
              (onNetEvent noopHandler throwingHandler emittingHandler
                 "http:request:complete" sample_frame sample_world).2))
    = [CallFailCurrentTest (VObject 3)].
Proof.
  pose proof (handler_failures_reach_failCurrentTest
                noopHandler throwingHandler emittingHandler
                sample_world "http:response:received" sample_frame throwingHandler
                eq_refl) as Hthrow.
  pose proof (handler_failures_reach_failCurrentTest
                noopHandler throwingHandler emittingHandler
                sample_world "http:request:complete" sample_frame emittingHandler
                eq_refl) as Hreject.
  cbv zeta in Hthrow, Hreject.
  destruct Hthrow as (_ & _ & Hdel).
  destruct Hreject as (_ & _ & _ & Hdel' & _).
  destruct Hdel as (_ & _ & _ & Htrace & _).
  destruct (Hdel' (VObject 3)) as (_ & _ & _ & Htrace' & _).
  split; [exact Htrace | exact Htrace'].
Defined.

(** C3 fails as stated: a handler that runs [throw undefined] does reach
    [failCurrentTest], but the call raises on the assignment; the failure
    then leaves as an unhandled rejection, and the failing action is never
    queued. *)
Lemma handler_throwing_undefined_is_unhandled :
  let w2 :=
    (onNetEvent noopHandler throwingUndefinedHandler emittingHandler
       "http:response:received" sample_frame sample_world).2 in
  trace (drain_jobs w2) =
    [CallFailCurrentTest VUndefined; UnhandledRejection (VObject 6)] ∧
  immediates (drain_jobs w2) = [] ∧
  cy_fail_calls (trace (drain_immediates (drain_jobs w2))) = [].
Proof. by repeat split. Qed.

(** * Further properties of the dispatcher *)

Lemma resetRoutes_keeps_queues (w : World) :
  promise_heap (resetRoutes w).2 = promise_heap w ∧
  jobs (resetRoutes w).2 = jobs w ∧
  trace (resetRoutes w).2 = trace w.
Proof. by rewrite resetRoutes_eq. Qed.

(** X1.  [failCurrentTest] keeps no record of the errors it has seen: two
    calls on objects that can take the property, the same one or two, queue
    two failing actions in call order, and both objects end up marked. *)
Theorem failCurrentTest_twice_queues_twice (w : World) (l1 l2 : Loc) :
  frozen (error_heap w l1) = false →
  frozen (error_heap w l2) = false →
  let e1 := VObject l1 in
  let e2 := VObject l2 in
  let w2 := (failCurrentTest e2 (failCurrentTest e1 w).2).2 in
  immediates w2 = immediates w ++ [TaskCyFail e1; TaskCyFail e2] ∧
  fromSpec (error_heap w2 l1) = true ∧
  fromSpec (error_heap w2 l2) = true ∧
  cy_fail_calls (trace (drain_immediates w2)) =
    cy_fail_calls (trace w) ++ map task_err (immediates w) ++ [e1; e2].
Proof.
  intros Hf1 Hf2. cbv zeta. rewrite (failCurrentTest_eq l1 w Hf1). cbn [snd].
  rewrite failCurrentTest_eq.
  2: { simpl. destruct (decide (l1 = l2)) as [<- | Hne];
         [by rewrite fn_lookup_insert | by rewrite fn_lookup_insert_ne]. }
  set (w2 := (_, _).2).
  destruct (run_immediates_spec (immediates w2) (length (immediates w2)) w2)
    as (_ & Htrace & _); [done | done |].
  split; [subst w2; simpl; by rewrite <- app_assoc |].
  split.
  - subst w2. simpl. destruct (decide (l2 = l1)) as [-> | Hne].
    + by rewrite fn_lookup_insert.
    + rewrite fn_lookup_insert_ne by done. by rewrite fn_lookup_insert.
  - split; [subst w2; simpl; by rewrite fn_lookup_insert |].
    unfold drain_immediates. rewrite Htrace. subst w2. simpl.
    rewrite !cy_fail_calls_app, cy_fail_calls_tasks, !map_app. simpl.
    by rewrite !app_nil_r, <- !app_assoc.
Qed.

Lemma failCurrentTest_twice_queues_twice_witness :
  let w2 := (failCurrentTest (VObject 3) (failCurrentTest (VObject 3) sample_world).2).2 in
  immediates w2 = [TaskCyFail (VObject 3); TaskCyFail (VObject 3)] ∧
  cy_fail_calls (trace (drain_immediates w2)) = [VObject 3; VObject 3].
Proof.
  pose proof (failCurrentTest_twice_queues_twice sample_world 3 3 eq_refl eq_refl) as H.
  cbv zeta in H. destruct H as (Himm & _ & _ & Hcalls).
  split; [exact Himm | exact Hcalls].
Defined.

Section DispatcherMore.

Context (onRequestReceived onResponseReceived onRequestComplete : HandlerFn).

Local Abbreviation run_listeners' :=
  (run_listeners onRequestReceived onResponseReceived onRequestComplete).
Local Abbreviation Cypress_emit' :=
  (Cypress_emit onRequestReceived onResponseReceived onRequestComplete).
Local Abbreviation onNetEvent' :=
  (onNetEvent onRequestReceived onResponseReceived onRequestComplete).
Local Abbreviation netEventHandlers' :=
  (netEventHandlers onRequestReceived onResponseReceived onRequestComplete).
Local Abbreviation invokeHandler' :=
  (invokeHandler onRequestReceived onResponseReceived onRequestComplete).

(** X2.  Between the end of the handler's synchronous part and the return of
    the ['net:event'] listener nothing observable happens: no
    [failCurrentTest] or [cy.fail] call, no deferred task, no outbound
    message, no change to an error object or to the registry.  Even a
    synchronous raise is only attributed on a later tick. *)
Theorem listener_adds_nothing_synchronously
    (w : World) (eventName : string) (frame : Frame) :
  let w1 := (invokeHandler' eventName frame w).2 in
  let w2 := (onNetEvent' eventName frame w).2 in
  trace w2 = trace w1 ∧
  immediates w2 = immediates w1 ∧
  outbox w2 = outbox w1 ∧
  error_heap w2 = error_heap w1 ∧
  registry_unchanged w1 w2.
Proof.
  cbv zeta.
  destruct (invokeHandler' eventName frame w) as [[[|p]|e] w1] eqn:Hinv.
  - rewrite (onNetEvent_void _ _ _ _ _ _ _ Hinv). by repeat split.
  - rewrite (onNetEvent_promise _ _ _ _ _ _ _ _ Hinv). simpl.
    destruct (promise_heap w1 p); by repeat split.
  - rewrite (onNetEvent_throw _ _ _ _ _ _ _ _ Hinv). by repeat split.
Qed.

(** X3.  A test-boundary reset does not detach the failure reaction of a
    handler that is still waiting on its promise.  After the reset every
    route whose identifier names no member of [Object.prototype] is gone,
    yet if the promise is then rejected the reason still reaches
    [failCurrentTest]: the reaction is queued last and calls it exactly
    once when its turn comes. *)
Theorem reset_keeps_pending_failure_reaction
    (w w1 : World) (eventName : string) (frame : Frame) (handler : HandlerFn)
    (p : Loc) (rs : list Callback) :
  netEventHandlers' eventName = Handler handler →
  handler frame handlerOpts w = (Normal (RetPromise p), w1) →
  promise_heap w1 p = Pending rs →
  let after := (resetRoutes (onNetEvent' eventName frame w).2).2 in
  (∀ rid qid, rid ∉ object_prototype_names →
     getRoute rid after = (Normal Undefined, after) ∧
     getRequest rid qid after = (Normal Undefined, after)) ∧
  ∀ e, delivers (reject_promise p e after) (length (jobs w1) + length rs) e.
Proof.
  intros Hsome Hrun Hp. cbv zeta.
  assert (Hinv : invokeHandler' eventName frame w = (Normal (RetPromise p), w1))
    by (unfold invokeHandler; by rewrite Hsome).
  rewrite (onNetEvent_promise _ _ _ _ _ _ _ _ Hinv). rewrite Hp. cbn [snd].
  split.
  - intros rid qid Hname.
    eapply fresh_empty_registry_lookups; [apply resetRoutes_fresh | done].
  - intros e. rewrite <- length_map with (f := λ cb : Callback, (cb, e)).
    rewrite <- length_app. apply delivers_last.
    unfold reject_promise. rewrite !resetRoutes_eq. simpl.
    rewrite fn_lookup_insert. simpl. by rewrite map_app, app_assoc.
Qed.

Lemma fire_unknown_net_event (eventName : string) (frame : Frame)
    (ls : list Listener) (w : World) :
  eventName ≠ "http:request:received" →
  eventName ≠ "http:response:received" →
  eventName ≠ "http:request:complete" →
  eventName ≠ "constructor" →
  eventName ≠ "toString" →
  let fired :=
    run_listeners'
      (filter (λ l, subscribed_to l = event_name (NetEvent eventName frame)) ls)
      (NetEvent eventName frame) w in
  let k := length (filter (λ l, l = NetEventListener) ls) in
  fired.1 = Normal () ∧
  jobs fired.2 =
    jobs w ++ map (λ i, (CbFailCurrentTest, VObject (next_loc w + 2 * i))) (seq 0 k) ∧
  trace fired.2 = trace w ∧
  registry_unchanged w fired.2.
Proof.
  intros H1 H2 H3 H4 H5. revert w. induction ls as [|l ls IH]; intros w; cbv zeta.
  - simpl. rewrite app_nil_r. split; [done |]. split; [done |]. split; [done |].
    apply registry_unchanged_refl.
  - destruct l.
    + rewrite filter_cons_False by done. rewrite (filter_cons_False (λ l, l = _)) by done.
      apply IH.
    + rewrite filter_cons_True by done. rewrite (filter_cons_True (λ l, l = _)) by done.
      rewrite run_listeners_cons. unfold run_listener.
      destruct (invokeHandler_raises onRequestReceived onResponseReceived
                  onRequestComplete eventName frame w H1 H2 H3 H4 H5) as [msg Hinv].
      rewrite (onNetEvent_throw _ _ _ _ _ _ _ _ Hinv).
      set (w1 := set_jobs _ _).
      destruct (IH w1) as (Hret & Hjobs & Htrace & Hreg).
      split; [done |].
      split.
      * rewrite Hjobs. subst w1. simpl. rewrite <- app_assoc. f_equal. simpl.
        f_equal; [do 2 f_equal; lia |].
        rewrite <- fmap_S_seq, <- list_fmap_compose.
        apply list_fmap_ext. intros _ i _. simpl. do 2 f_equal. lia.
      * split; [by rewrite Htrace |].
        eapply registry_unchanged_trans; [| exact Hreg]. by repeat split.
Qed.

(** X4.  An event whose name is not in the handler table and is neither
    ["constructor"] nor ["toString"] is dispatched once per ['net:event']
    subscription: with [k] subscriptions, firing it through the emitter
    ends in exactly [k] more [failCurrentTest] calls, each on its own
    [TypeError], and the registry is untouched.  With no subscription the
    event adds no call. *)
Theorem unknown_event_fails_once_per_subscription
    (w : World) (eventName : string) (frame : Frame) :
  eventName ≠ "http:request:received" →
  eventName ≠ "http:response:received" →
  eventName ≠ "http:request:complete" →
  eventName ≠ "constructor" →
  eventName ≠ "toString" →
  let k := length (filter (λ l, l = NetEventListener) (listeners w)) in
  let fired := Cypress_emit' (NetEvent eventName frame) w in
  fired.1 = Normal () ∧
  failCurrentTest_calls (trace (drain_jobs fired.2)) =
    failCurrentTest_calls (trace (drain_jobs w))
      ++ map (λ i, VObject (next_loc w + 2 * i)) (seq 0 k) ∧
  registry_unchanged w fired.2.
Proof.
  intros H1 H2 H3 H4 H5. cbv zeta.
  unfold Cypress_emit, get, mbind, M_bind.
  destruct (fire_unknown_net_event eventName frame (listeners w) w H1 H2 H3 H4 H5)
    as (Hret & Hjobs & Htrace & Hreg).
  split; [done |]. split; [| done].
  destruct (drain_jobs_calls w) as (_ & _ & ->).
  match goal with |- failCurrentTest_calls (trace (drain_jobs ?x)) = _ =>
    destruct (drain_jobs_calls x) as (_ & _ & ->) end.
  rewrite Hjobs, Htrace, map_app, <- app_assoc. f_equal. f_equal.
  by rewrite <- list_fmap_compose.
Qed.

End DispatcherMore.

Lemma reset_keeps_pending_failure_reaction_witness :
  let after :=
    (resetRoutes
       (onNetEvent noopHandler throwingHandler emittingHandler
          "http:request:complete" sample_frame sample_world).2).2 in
  getRoute "route1" after = (Normal Undefined, after) ∧
  trace (drain_jobs (reject_promise 5 (VObject 3) after)) =
    [CallFailCurrentTest (VObject 3)].
Proof.
  pose proof (reset_keeps_pending_failure_reaction
                noopHandler throwingHandler emittingHandler
                sample_world _ "http:request:complete" sample_frame emittingHandler
                5 [] eq_refl eq_refl eq_refl) as H.
  cbv zeta in H. destruct H as (Hgone & Hcall).
  assert (Hname : "route1" ∉ object_prototype_names)
    by (by apply (bool_decide_unpack _); vm_compute).
  destruct (Hcall (VObject 3)) as (_ & _ & _ & Htrace & _).
  split; [exact (proj1 (Hgone "route1" "req1" Hname)) | exact Htrace].
Defined.

Lemma unknown_event_fails_once_per_subscription_witness :
  let twice := (registerEvents (registerEvents initial_world).2).2 in
  failCurrentTest_calls
    (trace (drain_jobs
              (Cypress_emit noopHandler throwingHandler emittingHandler
                 (NetEvent "http:request:aborted" sample_frame) twice).2))
    = [VObject 0; VObject 2].
Proof.
  pose proof (unknown_event_fails_once_per_subscription
                noopHandler throwingHandler emittingHandler
                (registerEvents (registerEvents initial_world).2).2
                "http:request:aborted" sample_frame
                ltac:(done) ltac:(done) ltac:(done) ltac:(done) ltac:(done)) as H.
  cbv zeta in H. exact (proj1 (proj2 H)).
Defined.

(** * Properties of the configuration helpers *)

Import Config.

(** ** [toWords] *)

Lemma trim_end_nonspace (c : Ascii.ascii) (s : string) :
  is_space c = false → trim_end (String c s) = String c (trim_end s).
Proof. intros Hc. simpl. rewrite Hc. by destruct (trim_end s). Qed.

Lemma trim_end_fixed_cons (c : Ascii.ascii) (s : string) :
  trim_end (String c s) = String c s →
  trim_end s = s ∧ (s = EmptyString → is_space c = false).
Proof.
  simpl. destruct (trim_end s) as [|a t] eqn:Hs.
  - destruct (is_space c); [done |]. intros [= <-]. by split.
  - intros [= <-]. by split.
Qed.

Lemma trim_end_idemp (s : string) : trim_end (trim_end s) = trim_end s.
Proof.
  induction s as [|c s IH]; [done |]. simpl.
  destruct (trim_end s) as [|a t] eqn:Hs.
  - destruct (is_space c) eqn:Hc; [done |]. simpl. by rewrite Hc.
  - change (trim_end (String c (String a t)) = String c (String a t)).
    simpl. simpl in IH. by rewrite IH.
Qed.

Lemma trim_start_head (s : string) :
  starts_with_space (trim_start s) = false.
Proof.
  induction s as [|c s IH]; [done |]. simpl.
  destruct (is_space c) eqn:Hc; [done |]. simpl. exact Hc.
Qed.

Lemma trim_end_head (s : string) :
  starts_with_space s = false → starts_with_space (trim_end s) = false.
Proof.
  destruct s as [|c s]; [done |]. simpl. intros Hc. rewrite Hc.
  by destruct (trim_end s).
Qed.

Lemma split_spaces_no_space (s : string) (g : bool) :
  Forall (λ x, has_space x = false) (split_spaces s g).
Proof.
  revert g. induction s as [|c s IH]; intros g; simpl.
  - by repeat constructor.
  - destruct (is_space c) eqn:Hc.
    + destruct g; [apply IH | constructor; [done | apply IH]].
    + specialize (IH false). destruct (split_spaces s false) as [|x xs].
      * repeat constructor. simpl. by rewrite Hc.
      * inversion IH as [|? ? Hx Hxs]; subst. constructor; [| done].
        simpl. by rewrite Hc, Hx.
Qed.

Lemma split_spaces_words (s : string) (g : bool) :
  trim_end s = s →
  ∃ x xs, split_spaces s g = x :: xs ∧
    Forall (λ y, y ≠ EmptyString) xs ∧
    (x = EmptyString ↔ s = EmptyString ∨ (g = false ∧ starts_with_space s = true)).
Proof.
  revert g. induction s as [|c s IH]; intros g Hfix.
  - exists EmptyString, []. split; [done |]. split; [constructor | by split; [left |]].
  - destruct (trim_end_fixed_cons c s Hfix) as [Hs Hlast]. simpl.
    destruct (is_space c) eqn:Hc.
    + assert (Hne : s ≠ EmptyString) by (intros ->; by specialize (Hlast eq_refl)).
      destruct (IH true Hs) as (x & xs & Hsplit & Hxs & Hx).
      assert (Hx' : x ≠ EmptyString).
      { intros Hempty. apply Hx in Hempty as [? | [? _]]; done. }
      destruct g.
      * exists x, xs. split; [done |]. split; [done |].
        split; [done | intros [? | [? _]]; done].
      * exists EmptyString, (x :: xs). rewrite Hsplit. split; [done |].
        split; [by constructor |]. split; [by right | done].
    + destruct (IH false Hs) as (x & xs & Hsplit & Hxs & _). rewrite Hsplit.
      exists (String c x), xs. split; [done |]. split; [done |].
      split; [done | intros [? | [_ ?]]; congruence].
Qed.

(** X5.  [toWords] of a string that is empty or all white space is the
    one-element list holding the empty string; of any other string it is a
    non-empty list of words, none of them empty and none containing white
    space. *)
Theorem toWords_words (str : string) :
  (trim str = EmptyString ∧ toWords str = [EmptyString]) ∨
  (trim str ≠ EmptyString ∧
   toWords str ≠ [] ∧
   Forall (λ word, word ≠ EmptyString ∧ has_space word = false) (toWords str)).
Proof.
  unfold toWords. destruct (trim str) as [|c s] eqn:Htrim; [by left |].
  right. split; [done |].
  assert (Hfix : trim_end (String c s) = String c s)
    by (rewrite <- Htrim; apply trim_end_idemp).
  assert (Hhead : starts_with_space (String c s) = false)
    by (rewrite <- Htrim; apply trim_end_head, trim_start_head).
  destruct (split_spaces_words (String c s) false Hfix) as (x & xs & Hsplit & Hxs & Hx).
  pose proof (split_spaces_no_space (String c s) false) as Hclean.
  rewrite Hsplit in *. split; [done |].
  assert (Hne : Forall (λ y, y ≠ EmptyString) (x :: xs)).
  { constructor; [| done].
    intros Hempty. apply Hx in Hempty as [? | [_ ?]]; congruence. }
  rewrite Forall_forall in Hne, Hclean. apply Forall_forall.
  intros word Hword. split; [by apply Hne | by apply Hclean].
Qed.

Lemma trim_start_fixed (s : string) :
  starts_with_space s = false → trim_start s = s.
Proof. destruct s as [|c s]; [done |]. simpl. by intros ->. Qed.

Lemma trim_end_word (word : string) :
  has_space word = false → trim_end word = word.
Proof.
  induction word as [|c word IH]; [done |]. simpl.
  intros [Hc Hrest]%orb_false_elim. rewrite Hc, (IH Hrest). by destruct word.
Qed.

Lemma trim_end_app_fixed (s t : string) :
  trim_end t = t → t ≠ EmptyString → trim_end (s +:+ t) = s +:+ t.
Proof.
  intros Ht Hne. induction s as [|c s IH]; [done |].
  change (trim_end (String c (s +:+ t)) = String c (s +:+ t)).
  assert (Happ : ∃ a r, s +:+ t = String a r).
  { destruct s as [|a s']; [| by exists a, (s' +:+ t)].
    destruct t as [|a t']; [done | by exists a, t']. }
  destruct Happ as (a & r & Happ).
  simpl. rewrite IH. by rewrite Happ.
Qed.

Lemma split_spaces_gap (s : string) :
  starts_with_space s = false → split_spaces s true = split_spaces s false.
Proof. destruct s as [|c s]; [done |]. simpl. by intros ->. Qed.

Lemma split_spaces_word (word : string) :
  has_space word = false → split_spaces word false = [word].
Proof.
  induction word as [|c word IH]; [done |]. simpl.
  intros [Hc Hrest]%orb_false_elim. by rewrite Hc, (IH Hrest).
Qed.

Lemma split_spaces_word_then (word rest : string) (sp : Ascii.ascii) :
  has_space word = false → is_space sp = true →
  split_spaces (word +:+ String sp rest) false = word :: split_spaces rest true.
Proof.
  intros Hword Hsp. induction word as [|c word IH]; simpl.
  - by rewrite Hsp.
  - simpl in Hword. apply orb_false_elim in Hword as [Hc Hrest].
    change (String c word +:+ String sp rest) with (String c (word +:+ String sp rest)).
    simpl. by rewrite Hc, (IH Hrest).
Qed.

Lemma concat_words_shape (ws : list string) :
  ws ≠ [] →
  Forall (λ word, word ≠ EmptyString ∧ has_space word = false) ws →
  String.concat " " ws ≠ EmptyString ∧
  starts_with_space (String.concat " " ws) = false ∧
  trim_end (String.concat " " ws) = String.concat " " ws ∧
  split_spaces (String.concat " " ws) false = ws.
Proof.
  induction ws as [|word ws IH]; [done |]. intros _ Hall.
  inversion Hall as [|? ? [Hne Hclean] Hrest]; subst.
  assert (Hhead : starts_with_space word = false).
  { destruct word as [|c word]; [done |]. simpl in *.
    by apply orb_false_elim in Hclean as [? _]. }
  destruct ws as [|word' ws].
  - simpl. split; [done |]. split; [done |].
    split; [by apply trim_end_word | by apply split_spaces_word].
  - destruct IH as (Hne' & Hhead' & Hfix' & Hsplit'); [done | done |].
    change (String.concat " " (word :: word' :: ws))
      with (word +:+ String (Ascii.ascii_of_nat 32) (String.concat " " (word' :: ws))).
    set (rest := String.concat " " (word' :: ws)) in *.
    split; [destruct word; [done | discriminate] |].
    split; [by destruct word |].
    split.
    + apply trim_end_app_fixed; [| done].
      simpl. rewrite Hfix'. by destruct rest.
    + rewrite split_spaces_word_then by done.
      by rewrite split_spaces_gap, Hsplit'.
Qed.

(** X6.  [toWords] undoes joining: words that are non-empty and free of
    white space, joined by single blanks, are given back unchanged and in
    order. *)
Theorem toWords_concat (ws : list string) :
  ws ≠ [] →
  Forall (λ word, word ≠ EmptyString ∧ has_space word = false) ws →
  toWords (String.concat " " ws) = ws.
Proof.
  intros Hne Hall.
  destruct (concat_words_shape ws Hne Hall) as (_ & Hhead & Hfix & Hsplit).
  unfold toWords, trim. by rewrite (trim_start_fixed _ Hhead), Hfix.
Qed.

Lemma toWords_concat_witness :
  toWords "baseUrl port video" = ["baseUrl"; "port"; "video"].
Proof.
  apply (toWords_concat ["baseUrl"; "port"; "video"]); [done |].
  repeat constructor; done.
Defined.

(** ** The key tables, [allowed] and [validateNoBreakingConfig] *)

Lemma breakingConfigKeys_eq :
  breakingConfigKeys =
    [ "blacklistHosts"; "videoRecording"; "screenshotOnHeadlessFailure";
      "trashAssetsBeforeHeadlessRuns"; "experimentalGetCookiesSameSite" ].
Proof. reflexivity. Qed.

Lemma pick_lookup (obj : gmap string JsVal) (names : list string) (key : string) :
  pick obj names !! key = if decide (key ∈ names) then obj !! key else None.
Proof.
  unfold pick. apply option_eq. intros v. rewrite map_lookup_filter_Some. simpl.
  case_decide; split; try done; [by intros [? _] | by intros [_ ?]].
Qed.

Lemma each_ext {A} (f g : A → list string → Iter * list string) (xs : list A)
    (warnings : list string) :
  (∀ x ws, x ∈ xs → f x ws = g x ws) → each f xs warnings = each g xs warnings.
Proof.
  revert warnings. induction xs as [|x xs IH]; intros warnings Hfg; [done |].
  simpl. rewrite Hfg by apply list_elem_of_here.
  destruct (g x warnings) as [[| |e] ws']; [| done | done].
  apply IH. intros y ws Hy. apply Hfg. by apply list_elem_of_further.
Qed.

(** X7.  [allowed] is a projection onto the known keys: applying it twice
    changes nothing more, its result is part of its argument, it keeps every
    property whose name is a public, breaking, system or experimental key
    and drops every other one. *)
Theorem allowed_projection (obj : gmap string JsVal) :
  allowed (allowed obj) = allowed obj ∧
  allowed obj ⊆ obj ∧
  ∀ key,
    allowed obj !! key =
      if decide (key ∈ configKeys ∨ key ∈ breakingConfigKeys
                 ∨ key ∈ systemConfigKeys ∨ key ∈ experimentalConfigKeys)
      then obj !! key else None.
Proof.
  assert (Hlookup : ∀ o key,
    allowed o !! key =
      if decide (key ∈ configKeys ∨ key ∈ breakingConfigKeys
                 ∨ key ∈ systemConfigKeys ∨ key ∈ experimentalConfigKeys)
      then o !! key else None).
  { intros o key. unfold allowed. rewrite pick_lookup.
    repeat case_decide; [done | | | done]; exfalso;
      rewrite !elem_of_app in *; tauto. }
  split; [| split; [apply map_filter_subseteq | apply Hlookup]].
  apply map_eq. intros key. rewrite !Hlookup. by case_decide.
Qed.

(** X8.  [allowed] never hides a removed or renamed key: checking the
    filtered object with [validateNoBreakingConfig] raises, warns or passes
    exactly as checking the original does. *)
Theorem allowed_keeps_breaking_keys (warning_returns_false : bool)
    (obj : gmap string JsVal) :
  validateNoBreakingConfig warning_returns_false (allowed obj) =
  validateNoBreakingConfig warning_returns_false obj.
Proof.
  unfold validateNoBreakingConfig. apply each_ext. intros key ws Hkey.
  assert (Hsame : allowed obj !! key = obj !! key).
  { unfold allowed. rewrite pick_lookup. case_decide as Hin; [done |].
    exfalso. apply Hin. rewrite !elem_of_app. tauto. }
  by rewrite Hsame.
Qed.

Ltac breaking_cases cfg :=
  unfold validateNoBreakingConfig; rewrite breakingConfigKeys_eq; cbn [each];
  repeat match goal with
         | |- context [decide (is_Some (cfg !! ?key))] =>
             destruct (decide (is_Some (cfg !! key))); cbn
         end.

(** X9.  [validateNoBreakingConfig] is decided by the first of the five
    breaking keys, in table order, that the configuration holds: a renamed
    or removed key raises its own error and logs nothing, whatever other
    keys are present; the same-site key alone logs one warning and passes;
    with none of the keys the check passes silently. *)
Theorem validateNoBreakingConfig_first_key (warning_returns_false : bool)
    (cfg : gmap string JsVal) :
  validateNoBreakingConfig warning_returns_false cfg =
    if decide (is_Some (cfg !! "blacklistHosts")) then
      (Some (CypressError "RENAMED_CONFIG_OPTION" ["blacklistHosts"; "blockHosts"]), [])
    else if decide (is_Some (cfg !! "videoRecording")) then
      (Some (CypressError "RENAMED_CONFIG_OPTION" ["videoRecording"; "video"]), [])
    else if decide (is_Some (cfg !! "screenshotOnHeadlessFailure")) then
      (Some (CypressError "SCREENSHOT_ON_HEADLESS_FAILURE_REMOVED" []), [])
    else if decide (is_Some (cfg !! "trashAssetsBeforeHeadlessRuns")) then
      (Some (CypressError "RENAMED_CONFIG_OPTION"
               ["trashAssetsBeforeHeadlessRuns"; "trashAssetsBeforeRuns"]), [])
    else if decide (is_Some (cfg !! "experimentalGetCookiesSameSite")) then
      (None, ["EXPERIMENTAL_SAMESITE_REMOVED"])
    else (None, []).
Proof. breaking_cases cfg; by destruct warning_returns_false. Qed.

(** X10.  The [default] branch of the switch is dead: the check never
    raises the "unknown breaking config key" error.  Its outcome does not
    depend on what [errors.warning] returns, and it never both raises and
    warns. *)
Theorem validateNoBreakingConfig_never_unknown (b1 b2 : bool)
    (cfg : gmap string JsVal) :
  (∀ msg, (validateNoBreakingConfig b1 cfg).1 ≠ Some (JsError msg)) ∧
  validateNoBreakingConfig b1 cfg = validateNoBreakingConfig b2 cfg ∧
  ((validateNoBreakingConfig b1 cfg).1 = None ∨ (validateNoBreakingConfig b1 cfg).2 = []).
Proof.
  breaking_cases cfg; destruct b1, b2; simpl;
    (split; [done |]; split; [done |]; auto).
Qed.

(** ** [resolveConfigValues] *)

Lemma breaking_not_resolved (key : string) :
  key ∈ breakingConfigKeys →
  key ∉ (configKeys ++ systemConfigKeys) ++ experimentalConfigKeys.
Proof.
  rewrite breakingConfigKeys_eq. intros Hkey.
  repeat (apply elem_of_cons in Hkey as [-> | Hkey]);
    [.. | by apply elem_of_nil in Hkey];
    by apply (bool_decide_unpack _); vm_compute.
Qed.

Lemma resolveConfigValues_lookup (isEqual : JsVal → JsVal → bool)
    (config defaults resolved : gmap string JsVal) (key : string) (val : JsVal) :
  key ∈ (configKeys ++ systemConfigKeys) ++ experimentalConfigKeys →
  config !! key = Some val →
  resolveConfigValues isEqual config defaults resolved !! key =
    Some
      (if truthy (prop resolved key) then
         if isObject (prop resolved key) then prop resolved key
         else source val (prop resolved key)
       else if negb (negb (isEqual val (prop defaults key))
                     && negb (String.eqb key "browsers")) then
         source val (JString "default")
       else source val (JString "config")).
Proof.
  intros Hknown Hval. unfold resolveConfigValues.
  rewrite map_lookup_imap, pick_lookup, decide_True by done.
  rewrite Hval. simpl. unfold prop. by rewrite Hval.
Qed.

(** X11.  Without an override in [resolved], the browser list is always
    reported as coming from the defaults, whether or not it equals the
    default; any other known key is reported as ['default'] when its value
    equals the default and as ['config'] when it does not. *)
Theorem resolveConfigValues_without_override (isEqual : JsVal → JsVal → bool)
    (config defaults resolved : gmap string JsVal) (key : string) (val : JsVal) :
  key ∈ (configKeys ++ systemConfigKeys) ++ experimentalConfigKeys →
  config !! key = Some val →
  truthy (prop resolved key) = false →
  resolveConfigValues isEqual config defaults resolved !! key =
    Some (source val
            (JString
               (if String.eqb key "browsers" then "default"
                else if isEqual val (prop defaults key) then "default"
                else "config"))).
Proof.
  intros Hknown Hval Hnone.
  rewrite (resolveConfigValues_lookup _ _ _ _ _ val) by done. rewrite Hnone.
  destruct (String.eqb key "browsers"), (isEqual val (prop defaults key)); done.
Qed.

Lemma resolveConfigValues_without_override_witness :
  resolveConfigValues (λ _ _, false) sample_config ∅ ∅ !! "browsers" =
    Some (source (JArray [JString "chrome"]) (JString "default")) ∧
  resolveConfigValues (λ _ _, false) sample_config ∅ ∅ !! "baseUrl" =
    Some (source (JString "http://localhost:3000") (JString "config")).
Proof.
  split.
  - apply (resolveConfigValues_without_override (λ _ _, false) sample_config ∅ ∅
             "browsers" (JArray [JString "chrome"]));
      [by apply (bool_decide_unpack _); vm_compute | reflexivity | reflexivity].
  - apply (resolveConfigValues_without_override (λ _ _, false) sample_config ∅ ∅
             "baseUrl" (JString "http://localhost:3000"));
      [by apply (bool_decide_unpack _); vm_compute | reflexivity | reflexivity].
Defined.

(** X12.  The result of [resolveConfigValues] has an entry exactly for the
    properties of the configuration whose name is a public, system or
    experimental key; a breaking key or an unknown key never gets one.  An
    entry is the override object itself or a record of the configuration's
    own value. *)
Theorem resolveConfigValues_entries (isEqual : JsVal → JsVal → bool)
    (config defaults resolved : gmap string JsVal) (key : string) :
  (is_Some (resolveConfigValues isEqual config defaults resolved !! key) ↔
     is_Some (config !! key)
     ∧ key ∈ (configKeys ++ systemConfigKeys) ++ experimentalConfigKeys) ∧
  (key ∈ breakingConfigKeys →
     resolveConfigValues isEqual config defaults resolved !! key = None) ∧
  (∀ entry, resolveConfigValues isEqual config defaults resolved !! key = Some entry →
     (entry = prop resolved key ∧ isObject entry = true) ∨
     ∃ val from, config !! key = Some val ∧ entry = source val from).
Proof.
  assert (Hraw : resolveConfigValues isEqual config defaults resolved !! key =
                 pick config ((configKeys ++ systemConfigKeys) ++ experimentalConfigKeys)
                   !! key ≫= λ val,
                 Some
                   (if truthy (prop resolved key) then
                      if isObject (prop resolved key) then prop resolved key
                      else source val (prop resolved key)
                    else if negb (negb (isEqual (prop config key) (prop defaults key))
                                  && negb (String.eqb key "browsers")) then
                      source val (JString "default")
                    else source val (JString "config")))
    by (unfold resolveConfigValues; by rewrite map_lookup_imap).
  rewrite Hraw, pick_lookup. split; [| split].
  - case_decide as Hin.
    + destruct (config !! key); simpl; split;
        [by intros _; split | by intros _ | by intros [] | by intros [[] _]].
    + simpl. split; [by intros [] | by intros [_ ?]].
  - intros Hbreaking. rewrite decide_False; [done |].
    by apply breaking_not_resolved.
  - intros entry. case_decide; [| done].
    destruct (config !! key) as [val|]; [| done]. simpl. intros [= <-].
    destruct (truthy (prop resolved key)); [destruct (isObject _) eqn:Hobj |].
    + left. by split.
    + right. by eexists _, _.
    + right. destruct (negb _); by eexists _, _.
Qed.

(** ** [setAbsolutePaths] *)

Section AbsolutePathsFacts.

Context (path_resolve : JsVal → JsVal → Outcome string).

Local Abbreviation convert_folder' := (convert_folder path_resolve).

Lemma convert_folder_step (pr : JsVal) (obj m : gmap string JsVal) (folder : string) :
  convert_folder' pr obj (Returned m) folder =
    if enabled (prop obj folder) then
      match path_resolve pr (prop obj folder) with
      | Returned p => Returned (<[folder := JString p]> m)
      | Raised e => Raised e
      end
    else Returned m.
Proof. unfold convert_folder. by destruct (prop obj folder) as [| |[]| | | |]. Qed.

Lemma convert_fold_raised (pr : JsVal) (obj : gmap string JsVal) (fs : list string)
    (e : Failure) :
  foldl (convert_folder' pr obj) (Raised e) fs = Raised e.
Proof. induction fs as [|f fs IH]; [done | exact IH]. Qed.

Lemma convert_fold_returned (pr : JsVal) (obj : gmap string JsVal) (fs : list string)
    (m m' : gmap string JsVal) :
  foldl (convert_folder' pr obj) (Returned m) fs = Returned m' →
  ∀ key,
    (key ∈ fs → enabled (prop obj key) = true →
       ∃ p, path_resolve pr (prop obj key) = Returned p ∧ m' !! key = Some (JString p)) ∧
    (key ∉ fs ∨ enabled (prop obj key) = false → m' !! key = m !! key).
Proof.
  revert m. induction fs as [|f fs IH]; intros m Hfold key.
  - injection Hfold as <-. split; [by intros ?%elem_of_nil | done].
  - cbn [foldl] in Hfold. rewrite convert_folder_step in Hfold.
    destruct (enabled (prop obj f)) eqn:Hf.
    + destruct (path_resolve pr (prop obj f)) as [p|e] eqn:Hp;
        [| by rewrite convert_fold_raised in Hfold].
      destruct (IH _ Hfold key) as [Hin Hout]. split.
      * intros Hkey Hen. destruct (decide (key ∈ fs)) as [Hfs | Hfs]; [by apply Hin |].
        apply elem_of_cons in Hkey as [-> | ?]; [| done].
        exists p. split; [done |]. rewrite Hout by (by left). apply lookup_insert_eq.
      * intros Hkey.
        assert (Hne : f ≠ key).
        { intros <-. destruct Hkey as [Hkey | Hkey]; [| congruence].
          apply Hkey, list_elem_of_here. }
        rewrite Hout, lookup_insert_ne; [done | done |].
        destruct Hkey as [Hkey | Hkey]; [left | by right].
        intros ?. apply Hkey. by apply list_elem_of_further.
    + destruct (IH _ Hfold key) as [Hin Hout]. split.
      * intros Hkey Hen. apply Hin; [| done].
        apply elem_of_cons in Hkey as [-> | ?]; [congruence | done].
      * intros Hkey. apply Hout. destruct Hkey as [Hkey | Hkey]; [left | by right].
        intros ?. apply Hkey. by apply list_elem_of_further.
Qed.

Lemma convert_fold_failure (pr : JsVal) (obj : gmap string JsVal) (fs : list string)
    (m : gmap string JsVal) (e : Failure) :
  foldl (convert_folder' pr obj) (Returned m) fs = Raised e →
  ∃ key, key ∈ fs ∧ enabled (prop obj key) = true ∧
         path_resolve pr (prop obj key) = Raised e.
Proof.
  revert m. induction fs as [|f fs IH]; intros m Hfold; [done |].
  cbn [foldl] in Hfold. rewrite convert_folder_step in Hfold.
  destruct (enabled (prop obj f)) eqn:Hf.
  - destruct (path_resolve pr (prop obj f)) as [p|e'] eqn:Hp.
    + destruct (IH _ Hfold) as (key & Hkey & Hrest).
      exists key. split; [by apply list_elem_of_further | done].
    + rewrite convert_fold_raised in Hfold. injection Hfold as ->.
      exists f. split; [apply list_elem_of_here | done].
  - destruct (IH _ Hfold) as (key & Hkey & Hrest).
    exists key. split; [by apply list_elem_of_further | done].
Qed.

Lemma enabled_is_Some (obj : gmap string JsVal) (key : string) :
  enabled (prop obj key) = true → is_Some (obj !! key).
Proof. unfold prop. by destruct (obj !! key). Qed.

(** X13.  When [setAbsolutePaths] returns, the result has the same
    properties as the argument.  Only folder keys can differ: a folder that
    is missing, [null], [undefined] or [false] stays as it is, and every
    other folder holds what [path.resolve] made of the project root and its
    old value.  Without a truthy [projectRoot] nothing changes at all. *)
Theorem setAbsolutePaths_returned (obj obj' : gmap string JsVal) :
  setAbsolutePaths path_resolve obj = Returned obj' →
  (∀ key, key ∉ folders ∨ enabled (prop obj key) = false → obj' !! key = obj !! key) ∧
  (∀ key, is_Some (obj' !! key) ↔ is_Some (obj !! key)) ∧
  (truthy (prop obj "projectRoot") = false → obj' = obj) ∧
  (truthy (prop obj "projectRoot") = true →
   ∀ key, key ∈ folders → enabled (prop obj key) = true →
     ∃ p, path_resolve (prop obj "projectRoot") (prop obj key) = Returned p ∧
          obj' !! key = Some (JString p)).
Proof.
  unfold setAbsolutePaths. destruct (truthy (prop obj "projectRoot")) eqn:Hroot.
  - unfold convertRelativeToAbsolutePaths.
    destruct (foldl _ _ folders) as [converted|e] eqn:Hfold; [| done].
    intros [= <-].
    pose proof (convert_fold_returned _ _ _ _ _ Hfold) as Hconv.
    assert (Hkeep : ∀ key, key ∉ folders ∨ enabled (prop obj key) = false →
                    (converted ∪ obj) !! key = obj !! key).
    { intros key Hkey. destruct (Hconv key) as [_ Hout].
      apply lookup_union_r. by rewrite Hout. }
    assert (Hset : ∀ key, key ∈ folders → enabled (prop obj key) = true →
                   ∃ p, path_resolve (prop obj "projectRoot") (prop obj key) = Returned p ∧
                        (converted ∪ obj) !! key = Some (JString p)).
    { intros key Hkey Hen. destruct (Hconv key) as [Hin _].
      destruct (Hin Hkey Hen) as (p & Hp & Hlook).
      exists p. split; [done |]. by apply lookup_union_Some_l. }
    split; [done |]. split; [| split; [done | by intros _]].
    intros key. destruct (decide (key ∈ folders)) as [Hin | Hout];
      [destruct (enabled (prop obj key)) eqn:Hen |].
    + destruct (Hset key Hin Hen) as (p & _ & ->).
      split; [intros _; by apply enabled_is_Some | by eexists].
    + by rewrite Hkeep by (by right).
    + by rewrite Hkeep by (by left).
  - intros [= <-]. split; [done |]. split; [done |]. split; [done | done].
Qed.

(** X14.  [setAbsolutePaths] raises only because [path.resolve] did: there
    is a truthy project root and a folder key, holding something other than
    [null], [undefined] or [false], on which [path.resolve] raised that very
    failure. *)
Theorem setAbsolutePaths_raised (obj : gmap string JsVal) (e : Failure) :
  setAbsolutePaths path_resolve obj = Raised e →
  truthy (prop obj "projectRoot") = true ∧
  ∃ key, key ∈ folders ∧ enabled (prop obj key) = true ∧
         path_resolve (prop obj "projectRoot") (prop obj key) = Raised e.
Proof.
  unfold setAbsolutePaths. destruct (truthy (prop obj "projectRoot")); [| done].
  unfold convertRelativeToAbsolutePaths.
  destruct (foldl _ _ folders) as [converted|e'] eqn:Hfold; [done |].
  intros [= ->]. split; [done |]. by eapply convert_fold_failure.
Qed.

End AbsolutePathsFacts.

Lemma setAbsolutePaths_returned_witness :
  sample_config_absolute !! "supportFile" = Some (JBool false) ∧
  sample_config_absolute !! "myOwnKey" = Some (JNumber 1) ∧
  ∃ p, sample_path_resolve (JString "/work/app") (JString "cypress/integration")
         = Returned p ∧
       sample_config_absolute !! "integrationFolder" = Some (JString p).
Proof.
  pose proof (setAbsolutePaths_returned sample_path_resolve sample_config
                sample_config_absolute eq_refl) as (Hkeep & _ & _ & Hset).
  split; [exact (Hkeep "supportFile" (or_intror eq_refl)) |].
  split.
  - refine (Hkeep "myOwnKey" (or_introl _)). by apply (bool_decide_unpack _); vm_compute.
  - refine (Hset eq_refl "integrationFolder" _ eq_refl).
    by apply (bool_decide_unpack _); vm_compute.
Defined.

Lemma setAbsolutePaths_raised_witness :
  ∃ key, key ∈ folders ∧
         sample_path_resolve (JString "/work/app") (prop sample_bad_config key)
           = Raised (Thrown "ERR_INVALID_ARG_TYPE").
Proof.
  destruct (setAbsolutePaths_raised sample_path_resolve sample_bad_config
              (Thrown "ERR_INVALID_ARG_TYPE") eq_refl) as (_ & key & Hkey & _ & Hraise).
  exists key. split; [exact Hkey | exact Hraise].
Defined.

(** ** [getProcessEnvVars] *)

Section ProcessEnvFacts.

Context (toUpperCase : string → string) (coerce : string → JsVal).

Local Abbreviation isCypressEnvLike' := (isCypressEnvLike toUpperCase).
Local Abbreviation getProcessEnvVars' := (getProcessEnvVars toUpperCase coerce).
Local Abbreviation env_step' := (env_step toUpperCase coerce).

Lemma getProcessEnvVars_fold (obj : list (string * string)) :
  getProcessEnvVars' obj = foldl env_step' ∅ obj.
Proof. reflexivity. Qed.

Lemma assign_lookup_eq (memo : gmap string JsVal) (key : string) (v : JsVal) :
  key ≠ "__proto__" → assign memo key v !! key = Some v.
Proof.
  intros Hne. unfold assign. destruct (String.eqb_spec key "__proto__"); [done |].
  apply lookup_insert_eq.
Qed.

Lemma assign_lookup_ne (memo : gmap string JsVal) (key name : string) (v : JsVal) :
  key ≠ name → assign memo key v !! name = memo !! name.
Proof.
  intros Hne. unfold assign. destruct (String.eqb key "__proto__"); [done |].
  by apply lookup_insert_ne.
Qed.



Lemma env_fold_untouched (obj : list (string * string)) (memo : gmap string JsVal)
    (name : string) :
  (∀ key value, (key, value) ∈ obj → isCypressEnvLike' key = true →
                removeEnvPrefix key ≠ name) →
  foldl env_step' memo obj !! name = memo !! name.
Proof.
  revert memo. induction obj as [|[key value] obj IH]; intros memo Hother; [done |].
  cbn [foldl]. rewrite IH.
  - unfold env_step. simpl. destruct (isCypressEnvLike' key) eqn:Hlike; [| done].
    apply assign_lookup_ne. apply (Hother key value); [apply list_elem_of_here | done].
  - intros k val Hin. apply (Hother k val). by apply list_elem_of_further.
Qed.




(** X16.  When several variables shorten to the same name, other than
    [__proto__], the one the loop visits last decides: the entry holds its
    coerced value. *)
Theorem getProcessEnvVars_last_wins
    (before after : list (string * string)) (key value : string) :
  isCypressEnvLike' key = true →
  removeEnvPrefix key ≠ "__proto__" →
  (∀ key' value', (key', value') ∈ after → isCypressEnvLike' key' = true →
                  removeEnvPrefix key' ≠ removeEnvPrefix key) →
  getProcessEnvVars' (before ++ (key, value) :: after) !! removeEnvPrefix key =
    Some (coerce value).
Proof.
  intros Hlike Hproto Hafter. rewrite getProcessEnvVars_fold, foldl_app. cbn [foldl].
  rewrite env_fold_untouched by done.
  unfold env_step at 1. cbn [fst snd]. rewrite Hlike. by apply assign_lookup_eq.
Qed.

End ProcessEnvFacts.


Lemma getProcessEnvVars_last_wins_witness :
  getProcessEnvVars sample_toUpperCase sample_coerce
    ([("CYPRESS_video", "true")] ++ ("cypress_video", "false") :: [("PATH", "/usr/bin")])
    !! "video" = Some (JBool false).
Proof.
  apply (getProcessEnvVars_last_wins sample_toUpperCase sample_coerce
           [("CYPRESS_video", "true")] [("PATH", "/usr/bin")] "cypress_video" "false");
    [reflexivity | discriminate |].
  intros key' value' Hin Hlike.
  apply list_elem_of_singleton in Hin. injection Hin as -> ->. discriminate Hlike.
Defined.
